(** * Translation memory database: a model of [translate/storage/tmdb.py]

    The development embeds the [TMDB] class (insertion of translation
    units into an SQLite store, and retrieval of ranked fuzzy matches)
    and states the properties of the specification over that embedding.

    Conventions of the embedding:
    - Python [str] is [string]; a character is one [ascii], [len] is
      [String.length]. A value that may be Python [None] is an [option].
    - Python [int] is [Z]. Python [float] arithmetic ([x / 100.0]) is
      modelled by exact rational arithmetic on [Q], without the
      rounding of the binary64 operations.
    - A raised exception is a value of [exn]; code that may raise
      returns a [result].
    - The SQLite connection is a pair of database snapshots (the last
      committed one and the one of the open transaction). *)

From Stdlib Require Import QArith Qround Lqa Ascii String.
From stdpp Require Import base tactics option list sorting strings gmap.

Close Scope Q_scope.
Open Scope Z_scope.

(** ** Exceptions and results *)

(** The exceptions that the modelled code raises or handles.
    [LanguageError] is the class of tmdb.py; the others are Python's and
    sqlite3's. *)
Inductive exn : Type :=
  | LanguageError (value : string)
  | KeyError (key : string)
  | TypeError
  | ZeroDivisionError
  | IntegrityError
  | OperationalError.

Inductive result (A : Type) : Type :=
  | Return (a : A)
  | Raise (e : exn).
Arguments Return {A} a.
Arguments Raise {A} e.

(** ** Length bounds of the candidate query *)

(** Python's [max(a, b)] and [min(a, b)] on two numbers: the first
    argument unless the second is strictly larger (smaller). *)
Definition py_max (a b : Q) : Q := if Qle_bool b a then a else b.
Definition py_min (a b : Q) : Q := if Qle_bool a b then a else b.

(** [min_levenshtein_length(length, min_similarity)]:
    [math.ceil(max(length * (min_similarity / 100.0), 2))]. The quotient
    and the product are taken exactly. Python rounds each of them to a
    binary64 float, so where the exact value is an integer, or within a
    rounding error of one, the bound of the code can be the next
    integer: the code has [25 * (56 / 100.0)] just above 14 and returns
    15. The properties of the bounds below are stated for arguments on
    which that rounding does not change them. *)
Definition min_levenshtein_length (length : Z) (min_similarity : Q) : Z :=
  Qceiling (py_max (inject_Z length * (min_similarity / 100)) 2)%Q.

(** [max_levenshtein_length(length, min_similarity, max_length)]:
    [math.floor(min(length / (min_similarity / 100.0), max_length))],
    with exact quotients likewise (the code has [14 / (56 / 100.0)] just
    below 25 and returns 24). Dividing by a zero float raises
    [ZeroDivisionError]. *)
Definition max_levenshtein_length (length : Z) (min_similarity : Q) (max_length : Z)
  : result Z :=
  if Qeq_bool (min_similarity / 100) 0 then Raise ZeroDivisionError
  else Return (Qfloor (py_min (inject_Z length / (min_similarity / 100))
                              (inject_Z max_length))%Q).

(** ** Collaborators that are not part of the file

    [translate_unit] and [add_dict] call into modules and engines whose
    code is outside tmdb.py. The model takes them as an interface; every
    general theorem below holds for any implementation of it. *)
Class Environment : Type := {
  (** [data.normalize_code] of translate/lang/data.py. *)
  normalize_code : string → string;
  (** [LevenshteinComparer.similarity(a, b, stoppercentage)]. *)
  similarity : string → string → Q → Q;
  (** SQLite's [fulltext MATCH query] on an indexed text: [fts3_match text query]. *)
  fts3_match : string → string → bool;
  (** The fts3 query parser refuses the expression
      ([OperationalError: malformed MATCH expression]). *)
  fts3_malformed : string → bool;
  (** [int(time.time())] at the n-th reading of the clock. *)
  time_time : nat → Z;
}.

(** ** The SQLite store *)

(** Rows of the table [sources] of [init_database]. *)
Module sources.
Record row : Type := {
  sid : Z;                   (* INTEGER PRIMARY KEY AUTOINCREMENT *)
  text : string;             (* VARCHAR NOT NULL *)
  context : option string;   (* VARCHAR DEFAULT NULL *)
  lang : string;             (* VARCHAR NOT NULL *)
  length : Z;                (* INTEGER NOT NULL *)
}.
End sources.

(** Rows of the table [targets] of [init_database]. *)
Module targets.
Record row : Type := {
  tid : Z;                   (* INTEGER PRIMARY KEY AUTOINCREMENT *)
  sid : Z;                   (* INTEGER NOT NULL *)
  text : string;             (* VARCHAR NOT NULL *)
  lang : string;             (* VARCHAR NOT NULL *)
  time : option Z;           (* INTEGER DEFAULT NULL *)
}.
End targets.

(** Rows of the virtual table [fulltext] of [init_fulltext]. *)
Module fulltext.
Record row : Type := { docid : Z; text : string }.
End fulltext.

(** A snapshot of the database file. The tables keep their rows in
    insertion (rowid) order; [sources_seq] and [targets_seq] are the
    AUTOINCREMENT counters; [fulltext_tbl] is [None] when the engine has
    no fts3 module (then neither the table nor the triggers exist). *)
Record database : Type := {
  sources_tbl : list sources.row;
  sources_seq : Z;
  targets_tbl : list targets.row;
  targets_seq : Z;
  fulltext_tbl : option (list fulltext.row);
}.

(** The unique index [sources_uniq_idx ON sources (text, context, lang)].
    SQLite compares index keys with SQL equality, for which a NULL is
    different from every value, NULL included: a key whose context is
    NULL never conflicts. *)
Definition sources_uniq_conflict (text : string) (context : option string)
    (lang : string) (r : sources.row) : Prop :=
  sources.text r = text ∧ is_Some context ∧ sources.context r = context
  ∧ sources.lang r = lang.

Global Instance sources_uniq_conflict_dec text context lang r :
  Decision (sources_uniq_conflict text context lang r).
Proof. unfold sources_uniq_conflict. apply _. Defined.

(** The unique index [targets_uniq_idx ON targets (sid, text, lang)]. *)
Definition targets_uniq_conflict (sid : Z) (text lang : string) (r : targets.row) : Prop :=
  targets.sid r = sid ∧ targets.text r = text ∧ targets.lang r = lang.

Global Instance targets_uniq_conflict_dec sid text lang r :
  Decision (targets_uniq_conflict sid text lang r).
Proof. unfold targets_uniq_conflict. apply _. Defined.

(** [INSERT INTO sources (text, context, lang, length) VALUES(?, ?, ?, ?)].
    A [None] text violates NOT NULL and an equal key violates the unique
    index. Otherwise the row gets the next sid and the trigger
    [sources_insert_trig] copies it into [fulltext] under that sid as
    docid; the engine refuses the copy, and with it the whole statement,
    when [fulltext] already holds a row of that docid. Each refusal
    raises [IntegrityError] and leaves the database as it was. After an
    insert, the sid is the cursor's [lastrowid]. *)
Definition insert_source (text context : option string) (lang : string) (length : Z)
    (d : database) : result (Z * database) :=
  match text with
  | None => Raise IntegrityError
  | Some text =>
    if decide (Exists (sources_uniq_conflict text context lang) (sources_tbl d))
    then Raise IntegrityError
    else
      let sid := sources_seq d + 1 in
      if decide (Exists (λ f, fulltext.docid f = sid) (default [] (fulltext_tbl d)))
      then Raise IntegrityError
      else Return (sid,
        {| sources_tbl := sources_tbl d ++
             [ {| sources.sid := sid; sources.text := text;
                  sources.context := context; sources.lang := lang;
                  sources.length := length |} ];
           sources_seq := sid;
           targets_tbl := targets_tbl d;
           targets_seq := targets_seq d;
           fulltext_tbl :=
             (λ ft, ft ++ [ {| fulltext.docid := sid; fulltext.text := text |} ])
               <$> fulltext_tbl d |})
  end.

(** [SELECT sid FROM sources WHERE text=? AND context=? and lang=?]
    followed by [fetchone()]: the first matching row, if any. The
    comparisons are SQL equalities, so a NULL parameter matches no row. *)
Definition select_sid (text context : option string) (lang : string) (d : database)
  : option Z :=
  sources.sid <$>
    head (filter (λ r, Some (sources.text r) = text ∧ is_Some context
                       ∧ sources.context r = context ∧ sources.lang r = lang)
                 (sources_tbl d)).

(** [INSERT INTO targets (sid, text, lang, time) VALUES (?, ?, ?, ?)]. *)
Definition insert_target (sid : Z) (text : option string) (lang : string)
    (time : option Z) (d : database) : result database :=
  match text with
  | None => Raise IntegrityError
  | Some text =>
    if decide (Exists (targets_uniq_conflict sid text lang) (targets_tbl d))
    then Raise IntegrityError
    else
      let tid := targets_seq d + 1 in
      Return
        {| sources_tbl := sources_tbl d;
           sources_seq := sources_seq d;
           targets_tbl := targets_tbl d ++
             [ {| targets.tid := tid; targets.sid := sid; targets.text := text;
                  targets.lang := lang; targets.time := time |} ];
           targets_seq := tid;
           fulltext_tbl := fulltext_tbl d |}
  end.

(** A row of the candidate queries:
    [s.text, t.text, s.context, s.lang, t.lang]. *)
Definition candidate : Type := string * string * option string * string * string.

Definition candidate_of (s : sources.row) (t : targets.row) : candidate :=
  (sources.text s, targets.text t, sources.context s, sources.lang s, targets.lang t).

(** The condition shared by both candidate queries:
    [s.sid = t.sid] and [s.lang IN (?) AND t.lang IN (?)] with one bound
    parameter each (an [IN] list of one value is an equality with it) and
    the length bounds. *)
Definition candidate_where (source_langs target_langs : string) (minlen maxlen : Z)
    (s : sources.row) (t : targets.row) : Prop :=
  sources.sid s = targets.sid t
  ∧ sources.lang s = source_langs ∧ targets.lang t = target_langs
  ∧ minlen ≤ sources.length s ∧ sources.length s ≤ maxlen.

Global Instance candidate_where_dec sl tl lo hi s t :
  Decision (candidate_where sl tl lo hi s t).
Proof. unfold candidate_where. apply _. Defined.

(** The query without full text:
    [FROM sources s JOIN targets t ON s.sid = t.sid WHERE ...]. SQL leaves
    the order of the rows to the engine. With the indices of
    [init_database], SQLite walks [targets] through [targets_lang_idx]
    (the rows of the bound language, by tid) and looks up the source of
    each by its sid: the rows come in the order of the targets. *)
Definition select_candidates (source_langs target_langs : string) (minlen maxlen : Z)
    (d : database) : list candidate :=
  t ← targets_tbl d;
  s ← sources_tbl d;
  if decide (candidate_where source_langs target_langs minlen maxlen s t)
  then [candidate_of s t] else [].

(** The query with full text: the same join, further joined with
    [fulltext f ON s.sid = f.docid] and restricted by
    [fulltext MATCH ?]. The engine walks the targets and their sources
    as before, and searches [fulltext] innermost. *)
Definition select_candidates_fulltext [env : Environment]
    (source_langs target_langs : string)
    (minlen maxlen : Z) (search_str : string) (ft : list fulltext.row)
    (d : database) : list candidate :=
  t ← targets_tbl d;
  s ← sources_tbl d;
  f ← ft;
  if decide (candidate_where source_langs target_langs minlen maxlen s t
             ∧ sources.sid s = fulltext.docid f
             ∧ fts3_match (fulltext.text f) search_str = true)
  then [candidate_of s t] else [].

(** ** The connection and the monad of the methods *)

(** What the methods of [TMDB] act on: the connection of the calling
    thread, as the snapshot last committed and the snapshot of the open
    transaction (sqlite3 opens one implicitly before the first INSERT;
    statements read and write [working]), and the number of readings of
    the clock made so far. *)
Record state : Type := {
  committed : database;
  working : database;
  clock : nat;
}.

(** A method is a function from the state to its result (a value or a
    raised exception) and the state it leaves behind: the effects made
    before an exception is raised stay. *)
Definition M (A : Type) : Type := state → result A * state.

Definition ret {A} (a : A) : M A := λ st, (Return a, st).
Definition raise {A} (e : exn) : M A := λ st, (Raise e, st).
Definition bind {A B} (m : M A) (k : A → M B) : M B :=
  λ st, match m st with
        | (Return a, st') => k a st'
        | (Raise e, st') => (Raise e, st')
        end.

(** The state in which a method leaves the connection, whatever it returned. *)
Definition exec {A} (m : M A) (st : state) : state := (m st).2.

Declare Scope py_scope.
Delimit Scope py_scope with py.
Notation "x <- m ;; k" := (bind m (λ x, k))
  (at level 100, m at next level, right associativity) : py_scope.
Notation "m ;; k" := (bind m (λ _, k))
  (at level 100, right associativity) : py_scope.
Open Scope py_scope.

(** [try: body except ...: handler]. [handler e] is [Some h] when an
    except clause matches the exception [e]; [h] then runs in the state
    that [body] left. *)
Definition try_except {A} (body : M A) (handler : exn → option (M A)) : M A :=
  λ st, match body st with
        | (Return a, st') => (Return a, st')
        | (Raise e, st') =>
          match handler e with
          | Some h => h st'
          | None => (Raise e, st')
          end
        end.

(** [with contextlib.suppress(dbapi2.IntegrityError): body]. *)
Definition suppress_IntegrityError (body : M ()) : M () :=
  try_except body (λ e, match e with IntegrityError => Some (ret ()) | _ => None end).

(** [self.connection.commit()] and [self.connection.rollback()]. *)
Definition connection_commit : M () :=
  λ st, (Return (), {| committed := working st; working := working st; clock := clock st |}).
Definition connection_rollback : M () :=
  λ st, (Return (), {| committed := committed st; working := committed st; clock := clock st |}).

(** [int(time.time())]. *)
Definition int_time_time `{Environment} : M Z :=
  λ st, (Return (time_time (clock st)),
         {| committed := committed st; working := working st; clock := S (clock st) |}).

(** [self.cursor.execute] of the three statements of [add_dict]; the
    value is what the code reads from the cursor afterwards
    ([lastrowid], [fetchone()]). *)
Definition execute_insert_source (text context : option string) (lang : string)
    (length : Z) : M Z :=
  λ st, match insert_source text context lang length (working st) with
        | Return (sid, d) =>
          (Return sid, {| committed := committed st; working := d; clock := clock st |})
        | Raise e => (Raise e, st)
        end.

Definition execute_select_sid (text context : option string) (lang : string)
  : M (option Z) :=
  λ st, (Return (select_sid text context lang (working st)), st).

Definition execute_insert_target (sid : Z) (text : option string) (lang : string)
    (time : option Z) : M () :=
  λ st, match insert_target sid text lang time (working st) with
        | Return d =>
          (Return (), {| committed := committed st; working := d; clock := clock st |})
        | Raise e => (Raise e, st)
        end.

(** ** Python values used by the methods *)

(** A unit represented as a dictionary: keys to values that are a string
    or [None]. *)
Abbreviation unitdict := (gmap string (option string)).

(** [d[key]]: raises [KeyError] when the key is missing. *)
Definition getitem (d : unitdict) (key : string) : M (option string) :=
  match d !! key with
  | Some v => ret v
  | None => raise (KeyError key)
  end.

(** [len(x)]: raises [TypeError] on [None]. *)
Definition len (x : option string) : M Z :=
  match x with
  | Some s => ret (Z.of_nat (String.length s))
  | None => raise TypeError
  end.

(** [(sid,) = row] on the value of [fetchone()]: unpacking [None]
    raises [TypeError]. *)
Definition unpack (row : option Z) : M Z :=
  match row with
  | Some sid => ret sid
  | None => raise TypeError
  end.

(** The truth value of a string or [None]: the string itself when it is
    not empty. *)
Definition truthy (x : option string) : option string :=
  match x with
  | Some s => if decide (s = "") then None else Some s
  | None => None
  end.

(** The translation-unit abstraction of the file-format layer, as far as
    [add_unit] and [add_store] use it. *)
Module TranslationUnit.
Record t : Type := {
  source : option string;
  target : option string;
  getcontext : option string;
  getsourcelanguage : option string;
  gettargetlanguage : option string;
  istranslatable : bool;
  istranslated : bool;
}.
End TranslationUnit.

(** A suggestion returned by [translate_unit]: the dictionary with the
    keys [source], [target], [context] and [quality]. *)
Module suggestion.
Record t : Type := {
  source : string;
  target : string;
  context : option string;
  quality : Q;
}.
End suggestion.

(** ** The class [TMDB] *)

(** The attributes set by [__init__]; [fulltext] is the outcome of
    [init_fulltext]. *)
Record TMDB : Type := {
  max_candidates : Z;
  min_similarity : Q;
  max_length : Z;
  fulltext : bool;
}.

Section methods.
Context `{env : Environment}.

(** The inner [try] of [add_dict]: the INSERT into [sources] and, when
    it raises [IntegrityError], the SELECT of the sid of the row that is
    already there. The value is the variable [sid]; [source_lang] is the
    normalized code. *)
Definition add_dict_source (u : unitdict) (source_lang : string) : M Z :=
  try_except
    (text <- getitem u "source";;
     context <- getitem u "context";;
     text' <- getitem u "source";;
     length <- len text';;
     execute_insert_source text context source_lang length)
    (λ e, match e with
          | IntegrityError =>
            (* source string already exists in db, run query to find sid *)
            Some (text <- getitem u "source";;
                  context <- getitem u "context";;
                  sid <- execute_select_sid text context source_lang;;
                  unpack sid)
          | _ => None
          end).

(** The [with contextlib.suppress(dbapi2.IntegrityError)] block of
    [add_dict]: the INSERT into [targets]. *)
Definition add_dict_target (u : unitdict) (sid : Z) (target_lang : string) : M () :=
  (* target string already exists in db, do nothing *)
  suppress_IntegrityError
    (text <- getitem u "target";;
     time <- int_time_time;;
     execute_insert_target sid text target_lang (Some time)).

(** [TMDB.add_dict(unit, source_lang, target_lang, commit=True)]. *)
Definition add_dict (u : unitdict) (source_lang target_lang : string) (commit : bool)
  : M () :=
  let source_lang := normalize_code source_lang in
  let target_lang := normalize_code target_lang in
  try_except
    (sid <- add_dict_source u source_lang;;
     add_dict_target u sid target_lang;;
     if commit then connection_commit else ret ())
    (λ e, Some ((if commit then connection_rollback else ret ());; raise e)).

(** [TMDB.add_unit(unit, source_lang=None, target_lang=None, commit=True)]. *)
Definition add_unit (u : TranslationUnit.t) (source_lang target_lang : option string)
    (commit : bool) : M () :=
  let source_lang :=
    match truthy (TranslationUnit.getsourcelanguage u) with
    | Some _ => TranslationUnit.getsourcelanguage u
    | None => source_lang
    end in
  let target_lang :=
    match truthy (TranslationUnit.gettargetlanguage u) with
    | Some _ => TranslationUnit.gettargetlanguage u
    | None => target_lang
    end in
  match truthy source_lang with
  | None => raise (LanguageError "undefined source language")
  | Some source_lang =>
    match truthy target_lang with
    | None => raise (LanguageError "undefined target language")
    | Some target_lang =>
      let unitdict : unitdict :=
        {[ "source" := TranslationUnit.source u;
           "target" := TranslationUnit.target u;
           "context" := TranslationUnit.getcontext u ]} in
      add_dict unitdict source_lang target_lang commit
    end
  end.

(** The loop of [add_store]: [count] is the counter on entry. *)
Fixpoint add_store_loop (units : list TranslationUnit.t)
    (source_lang target_lang : option string) (count : Z) : M Z :=
  match units with
  | [] => ret count
  | u :: units =>
    if TranslationUnit.istranslatable u && TranslationUnit.istranslated u
    then add_unit u source_lang target_lang false;;
         add_store_loop units source_lang target_lang (count + 1)
    else add_store_loop units source_lang target_lang count
  end.

(** [TMDB.add_store(store, source_lang, target_lang, commit=True)];
    [units] is [store.units]. *)
Definition add_store (units : list TranslationUnit.t)
    (source_lang target_lang : option string) (commit : bool) : M Z :=
  count <- add_store_loop units source_lang target_lang 0;;
  (if commit then connection_commit else ret ());;
  ret count.

(** The loop of [add_list]. *)
Fixpoint add_list_loop (units : list unitdict) (source_lang target_lang : string)
    (count : Z) : M Z :=
  match units with
  | [] => ret count
  | u :: units =>
    add_dict u source_lang target_lang false;;
    add_list_loop units source_lang target_lang (count + 1)
  end.

(** [TMDB.add_list(units, source_lang, target_lang, commit=True)]. *)
Definition add_list (units : list unitdict) (source_lang target_lang : string)
    (commit : bool) : M Z :=
  count <- add_list_loop units source_lang target_lang 0;;
  (if commit then connection_commit else ret ());;
  ret count.

(** *** Tokenizing the query *)

(** The characters that [\w] matches under [re.UNICODE], among the code
    points below 256: letters, digits and other numeric characters, and
    the underscore. *)
Definition is_word_char (c : ascii) : bool :=
  let n := Z.of_N (Ascii.N_of_ascii c) in
  (48 <=? n) && (n <=? 57) || (65 <=? n) && (n <=? 90) || (n =? 95)
  || (97 <=? n) && (n <=? 122)
  || (n =? 170) || (n =? 178) || (n =? 179) || (n =? 181) || (n =? 185) || (n =? 186)
  || (188 <=? n) && (n <=? 190)
  || (192 <=? n) && (n <=? 214) || (216 <=? n) && (n <=? 246) || (248 <=? n).

(** [STRIP_REGEXP.sub(" ", s)]: every character that is not a word
    character becomes a space. *)
Fixpoint STRIP_REGEXP_sub (s : string) : string :=
  match s with
  | EmptyString => EmptyString
  | String c s => String (if is_word_char c then c else " "%char) (STRIP_REGEXP_sub s)
  end.

(** The characters on which [str.split()] splits, among the code points
    below 256. *)
Definition is_space (c : ascii) : bool :=
  let n := Z.of_N (Ascii.N_of_ascii c) in
  (9 <=? n) && (n <=? 13) || (28 <=? n) && (n <=? 32) || (n =? 133) || (n =? 160).

(** [s.split()]: the maximal runs of characters that are not white
    space; [word] is the run being read, last character first. *)
Fixpoint split_from (word : list ascii) (s : string) : list string :=
  match s with
  | EmptyString =>
    match word with
    | [] => []
    | _ => [string_of_list_ascii (rev word)]
    end
  | String c s =>
    if is_space c
    then match word with
         | [] => split_from [] s
         | _ => string_of_list_ascii (rev word) :: split_from [] s
         end
    else split_from (c :: word) s
  end.

Definition split (s : string) : list string := split_from [] s.

(** The words of the query that are at least 3 characters long. *)
Definition unit_words (unit_source : string) : list string :=
  List.filter (λ word, (2 <? String.length word)%nat) (split (STRIP_REGEXP_sub unit_source)).

(** *** Ranking *)

(** [results.sort(key=operator.itemgetter("quality"), reverse=True)].
    Python's sort is stable, also with [reverse=True]: the result is the
    one arrangement of the list by non-increasing quality in which
    elements of equal quality keep their order. The model builds it by
    insertion from the right: an element goes behind the elements of
    strictly greater quality and in front of all others. *)
Fixpoint sort_insert (x : suggestion.t) (l : list suggestion.t) : list suggestion.t :=
  match l with
  | [] => [x]
  | y :: l' =>
    if Qle_bool (suggestion.quality y) (suggestion.quality x)
    then x :: l
    else y :: sort_insert x l'
  end.

Definition sort_reverse (l : list suggestion.t) : list suggestion.t :=
  foldr sort_insert [] l.

(** [l[:n]] for a Python integer [n]: a negative [n] counts from the end. *)
Definition slice_to {A} (l : list A) (n : Z) : list A :=
  if decide (0 ≤ n) then take (Z.to_nat n) l
  else take (List.length l - Z.to_nat (- n)) l.

(** The body of the loop over the cursor: the suggestion made of a row,
    if its quality reaches the threshold. *)
Definition score (self : TMDB) (unit_source : string) (row : candidate)
  : option suggestion.t :=
  let '(s_text, t_text, s_context, _, _) := row in
  let quality := similarity unit_source s_text (min_similarity self) in
  if Qle_bool (min_similarity self) quality
  then Some {| suggestion.source := s_text; suggestion.target := t_text;
               suggestion.context := s_context; suggestion.quality := quality |}
  else None.

(** The language argument of [translate_unit]: a list of codes or a
    single code ([isinstance(source_langs, list)]). *)
Inductive langs : Type :=
  | LangList (codes : list string)
  | LangStr (code : string).

(** The bound parameter made of a language argument: the normalized
    codes of a list joined by commas, or the normalized single code. *)
Definition langs_param (l : langs) : string :=
  match l with
  | LangList codes => String.concat "," (normalize_code <$> codes)
  | LangStr code => normalize_code code
  end.

(** [self.cursor.execute(query, ...)] of [translate_unit], with the
    rows that iterating over the cursor yields. With [self.fulltext] set
    and more than 3 words, the full-text query runs. It fails when the
    table [fulltext] does not exist, and when the engine parses a
    malformed MATCH expression, which it does on reaching [fulltext] for
    the first pair of a target and a source that meets the other
    conditions: over a store without such a pair the expression is never
    parsed and there are no rows. *)
Definition execute_candidates (self : TMDB) (unit_source source_langs target_langs : string)
    (minlen maxlen : Z) : M (list candidate) :=
  λ st,
    let unit_words := unit_words unit_source in
    if fulltext self && (3 <? List.length unit_words)%nat
    then
      let search_str := String.concat " OR " unit_words in
      match fulltext_tbl (working st) with
      | Some ft =>
        if fts3_malformed search_str
           && bool_decide (select_candidates source_langs target_langs minlen maxlen
                             (working st) ≠ [])
        then (Raise OperationalError, st)
        else
          (Return (select_candidates_fulltext source_langs target_langs minlen maxlen
                     search_str ft (working st)), st)
      | None => (Raise OperationalError, st)
      end
    else (Return (select_candidates source_langs target_langs minlen maxlen (working st)), st).

(** [TMDB.translate_unit(unit_source, source_langs, target_langs)]. *)
Definition translate_unit (self : TMDB) (unit_source : string)
    (source_langs target_langs : langs) : M (list suggestion.t) :=
  let source_langs := langs_param source_langs in
  let target_langs := langs_param target_langs in
  let minlen := min_levenshtein_length (Z.of_nat (String.length unit_source))
                  (min_similarity self) in
  match max_levenshtein_length (Z.of_nat (String.length unit_source))
          (min_similarity self) (max_length self) with
  | Raise e => raise e
  | Return maxlen =>
    rows <- execute_candidates self unit_source source_langs target_langs minlen maxlen;;
    let results := omap (score self unit_source) rows in
    let results := sort_reverse results in
    let results := slice_to results (max_candidates self) in
    ret results
  end.

End methods.

(** ** Vocabulary of the properties *)

(** The unique indices, as properties of a snapshot: at most one row for
    a key. (A key of [sources] with a NULL context conflicts with no
    row, so any number of rows may carry it.) *)
Definition sources_unique (d : database) : Prop :=
  ∀ text context lang,
    (List.length (filter (sources_uniq_conflict text context lang) (sources_tbl d)) ≤ 1)%nat.

Definition targets_unique (d : database) : Prop :=
  ∀ sid text lang,
    (List.length (filter (targets_uniq_conflict sid text lang) (targets_tbl d)) ≤ 1)%nat.

Definition state_unique (st : state) : Prop :=
  (sources_unique (committed st) ∧ targets_unique (committed st))
  ∧ (sources_unique (working st) ∧ targets_unique (working st)).

(** A method preserves a property of the state, whatever it returns or
    raises. *)
Definition preserves {A} (I : state → Prop) (m : M A) : Prop :=
  ∀ st, I st → I (m st).2.

(** A method commits nothing. *)
Definition keeps_committed {A} (m : M A) : Prop :=
  ∀ c, preserves (λ st, committed st = c) m.

Global Instance Qeq_decision (x y : Q) : Decision (x == y)%Q := Qeq_dec x y.

(** [a] may stand before [b] in a list sorted by non-increasing quality. *)
Definition quality_ge (a b : suggestion.t) : Prop :=
  (suggestion.quality b <= suggestion.quality a)%Q.

(** The suggestions of quality [q]. *)
Definition has_quality (q : Q) (r : suggestion.t) : Prop :=
  (suggestion.quality r == q)%Q.

Global Instance has_quality_dec q r : Decision (has_quality q r).
Proof. unfold has_quality. apply _. Defined.

(** The units that [add_store] is to insert: those for which both
    [istranslatable()] and [istranslated()] are true. *)
Definition passes (u : TranslationUnit.t) : Prop :=
  TranslationUnit.istranslatable u = true ∧ TranslationUnit.istranslated u = true.

Global Instance passes_dec u : Decision (passes u).
Proof. unfold passes. apply _. Defined.

Section reference_methods.
Context `{env : Environment}.

(** [add_unit] with the commit deferred, on each unit of a list in turn. *)
Fixpoint insert_units (units : list TranslationUnit.t)
    (source_lang target_lang : option string) : M () :=
  match units with
  | [] => ret ()
  | u :: units =>
    add_unit u source_lang target_lang false;;
    insert_units units source_lang target_lang
  end.

(** [add_store] as the specification words it: the units passing both
    predicates are inserted, the others skipped; the transaction is
    committed if asked; the count is the number of units that passed. *)
Definition add_store_spec (units : list TranslationUnit.t)
    (source_lang target_lang : option string) (commit : bool) : M Z :=
  let selected := filter passes units in
  insert_units selected source_lang target_lang;;
  (if commit then connection_commit else ret ());;
  ret (Z.of_nat (List.length selected)).

End reference_methods.

(** ** A reference environment

    Concrete collaborators, used to run the methods on examples. *)

(** Lower case of an ASCII letter. *)
Definition ascii_lower (c : ascii) : ascii :=
  let n := Ascii.N_of_ascii c in
  if ((65 <=? n) && (n <=? 90))%N then Ascii.ascii_of_N (n + 32) else c.

(** Modelled from the spec: [data.normalize_code] (translate/lang/data.py
    is not among the sources), the "case/region canonicalization" of a
    language code: the separators [_] and [@] become [-] and the letters
    become lower case. *)
Fixpoint ref_normalize_code (code : string) : string :=
  match code with
  | EmptyString => EmptyString
  | String c code =>
    String (if decide (c = "_"%char ∨ c = "@"%char) then "-"%char else ascii_lower c)
           (ref_normalize_code code)
  end.

(** The edit distance of two strings (insertions, deletions and
    substitutions of one character). *)
Fixpoint distance (a : list ascii) : list ascii → nat :=
  match a with
  | [] => λ b, List.length b
  | x :: a' =>
    fix distance_row (b : list ascii) : nat :=
      match b with
      | [] => S (List.length a')
      | y :: b' =>
        if decide (x = y) then distance a' b'
        else S (distance a' b' `min` (distance a' b `min` distance_row b'))
      end
  end.

(** Modelled from the spec: [LevenshteinComparer.similarity]
    (translate/search/lshtein.py is not among the sources), the
    "normalized edit-distance ratio" between 0 and 100: 100 if both
    strings are empty, 0 if exactly one is, and otherwise 100 times one
    minus the distance over the greater length. *)
Definition ref_similarity (a b : string) (stoppercentage : Q) : Q :=
  let a := list_ascii_of_string a in
  let b := list_ascii_of_string b in
  match a, b with
  | [], [] => 100
  | [], _ | _, [] => 0
  | _, _ =>
    Qred (100 - 100 * (inject_Z (Z.of_nat (distance a b))
                       / inject_Z (Z.of_nat (List.length a `max` List.length b))))%Q
  end.

(** An approximation of SQLite's [MATCH] for a query of words joined by
    [OR]: the text has one of the words of the query among its own
    words, letter case aside. *)
Definition ref_fts3_match (text query : string) : bool :=
  let tokens (s : string) :=
    (λ w, string_of_list_ascii (ascii_lower <$> list_ascii_of_string w))
      <$> split (STRIP_REGEXP_sub s) in
  bool_decide (Exists (λ w, w ≠ "or" ∧ w ∈ tokens text) (tokens query)).

(** The expressions that the parser refuses, among the queries of words
    joined by [OR]: those with [AND], [NOT] or [NEAR], which are
    operators of the query language, among the words. *)
Definition ref_fts3_malformed (query : string) : bool :=
  bool_decide (Exists (λ w, w ∈ ["AND"; "NOT"; "NEAR"]) (split query)).

(** A clock that advances by one second at each reading. *)
Definition ref_time_time (n : nat) : Z := 1700000000 + Z.of_nat n.

Definition ref_env : Environment := {|
  normalize_code := ref_normalize_code;
  similarity := ref_similarity;
  fts3_match := ref_fts3_match;
  fts3_malformed := ref_fts3_malformed;
  time_time := ref_time_time;
|}.

(** The store after [init_database] on a new file, with and without the
    fts3 module, and a connection to it. *)
Definition empty_database (fts3 : bool) : database :=
  {| sources_tbl := []; sources_seq := 0; targets_tbl := []; targets_seq := 0;
     fulltext_tbl := if fts3 then Some [] else None |}.

Definition connect (d : database) : state :=
  {| committed := d; working := d; clock := 0 |}.

(** [TMDB(db_file)] with the default options. *)
Definition default_TMDB (fts3 : bool) : TMDB :=
  {| max_candidates := 3; min_similarity := 75; max_length := 1000; fulltext := fts3 |}.

(** Units as dictionaries: a complete one, one whose context is [None],
    one without the key [source], and a second complete one. *)
Definition hello_unit : unitdict :=
  {[ "source" := Some "Hello world"; "target" := Some "Bonjour monde";
     "context" := Some "" ]}.

Definition hello_unit_no_context : unitdict :=
  {[ "source" := Some "Hello world"; "target" := Some "Bonjour monde";
     "context" := None ]}.

Definition broken_unit : unitdict :=
  {[ "target" := Some "Chat"; "context" := Some "" ]}.

Definition cat_unit : unitdict :=
  {[ "source" := Some "Cat"; "target" := Some "Chat"; "context" := Some "" ]}.

(** Units of a store: a translated one, one that is not translated, and
    a translated one that names no language. *)
Definition translated_unit : TranslationUnit.t :=
  {| TranslationUnit.source := Some "Hello world";
     TranslationUnit.target := Some "Bonjour monde";
     TranslationUnit.getcontext := Some "";
     TranslationUnit.getsourcelanguage := Some "en";
     TranslationUnit.gettargetlanguage := Some "fr";
     TranslationUnit.istranslatable := true;
     TranslationUnit.istranslated := true |}.

Definition untranslated_unit : TranslationUnit.t :=
  {| TranslationUnit.source := Some "Cat";
     TranslationUnit.target := Some "";
     TranslationUnit.getcontext := Some "";
     TranslationUnit.getsourcelanguage := Some "en";
     TranslationUnit.gettargetlanguage := Some "fr";
     TranslationUnit.istranslatable := true;
     TranslationUnit.istranslated := false |}.

Definition unit_without_language : TranslationUnit.t :=
  {| TranslationUnit.source := Some "Dog";
     TranslationUnit.target := Some "Chien";
     TranslationUnit.getcontext := Some "";
     TranslationUnit.getsourcelanguage := None;
     TranslationUnit.gettargetlanguage := Some "";
     TranslationUnit.istranslatable := true;
     TranslationUnit.istranslated := true |}.

(** The store holding the pair "Hello world" (en) / "Bonjour monde" (fr),
    committed. *)
Definition hello_state : state :=
  exec (add_dict (env := ref_env) hello_unit "en" "fr" true) (connect (empty_database false)).

(** A store with four sources close to "Hello world" and one far from
    it, filled by one [add_list]. *)
Definition pair_unit (source target : string) : unitdict :=
  {[ "source" := Some source; "target" := Some target; "context" := Some "" ]}.

Definition ranking_state : state :=
  exec (add_list (env := ref_env)
          [ pair_unit "Hello worlds" "Bonjour mondes";
            pair_unit "Hello world!" "Bonjour monde !";
            pair_unit "Hello world" "Bonjour monde";
            pair_unit "Hello, world" "Bonjour, monde";
            pair_unit "Goodbye" "Au revoir" ] "en" "fr" true)
       (connect (empty_database false)).

(** What [translate_unit] returns for "Hello world" on that store. *)
Definition ranking_results : list suggestion.t :=
  [ {| suggestion.source := "Hello world"; suggestion.target := "Bonjour monde";
       suggestion.context := Some ""; suggestion.quality := 100 |};
    {| suggestion.source := "Hello worlds"; suggestion.target := "Bonjour mondes";
       suggestion.context := Some ""; suggestion.quality := 275 # 3 |};
    {| suggestion.source := "Hello world!"; suggestion.target := "Bonjour monde !";
       suggestion.context := Some ""; suggestion.quality := 275 # 3 |} ].

Definition hello_result : suggestion.t :=
  {| suggestion.source := "Hello world"; suggestion.target := "Bonjour monde";
     suggestion.context := Some ""; suggestion.quality := 100 |}.

(** The same pair, stored under the empty language code on both sides. *)
Definition hello_state_no_language : state :=
  exec (add_dict (env := ref_env) hello_unit "" "" true) (connect (empty_database false)).

(** ** The rest of the class *)

(** The row that the trigger [sources_insert_trig], and the backfill of
    [init_fulltext], put into [fulltext] for a source. *)
Definition fulltext_row_of (s : sources.row) : fulltext.row :=
  {| fulltext.docid := sources.sid s; fulltext.text := sources.text s |}.

(** [INSERT INTO fulltext (rowid, text) SELECT sid, text FROM sources
    WHERE sid NOT IN (SELECT rowid FROM fulltext)]. *)
Definition backfill_fulltext (ft : list fulltext.row) (srcs : list sources.row)
  : list fulltext.row :=
  ft ++ (fulltext_row_of <$>
           filter (λ s, sources.sid s ∉ (fulltext.docid <$> ft)) srcs).

(** [TMDB.init_fulltext()]; the value is what it leaves in
    [self.fulltext]. [fts3] tells whether the engine has the fts3
    module, which the method finds out by creating a throwaway
    table. [executescript] first commits the pending transaction. With
    fts3, the table [fulltext] is created if it is missing, the sources
    that it lacks are copied into it, the triggers are created and the
    whole is committed. Without fts3 the creation of the throwaway table
    raises [OperationalError], which the method handles: there is no
    table and no trigger to drop. *)
Definition init_fulltext (fts3 : bool) : M bool :=
  λ st,
    let d := working st in
    if fts3 then
      let ft := default [] (fulltext_tbl d) in
      let d' :=
        {| sources_tbl := sources_tbl d; sources_seq := sources_seq d;
           targets_tbl := targets_tbl d; targets_seq := targets_seq d;
           fulltext_tbl := Some (backfill_fulltext ft (sources_tbl d)) |} in
      (Return true, {| committed := d'; working := d'; clock := clock st |})
    else (Return false, {| committed := d; working := d; clock := clock st |}).

(** The rows that [preload_db] counts:
    [FROM sources s JOIN targets t on s.sid = t.sid], and with full text
    [FROM sources s JOIN fulltext f ON s.sid = f.docid JOIN targets t on
    s.sid = t.sid]. *)
Definition preload_rows (d : database) : list (sources.row * targets.row) :=
  s ← sources_tbl d;
  t ← targets_tbl d;
  if decide (sources.sid s = targets.sid t) then [(s, t)] else [].

Definition preload_rows_fulltext (ft : list fulltext.row) (d : database)
  : list (sources.row * fulltext.row * targets.row) :=
  s ← sources_tbl d;
  f ← ft;
  t ← targets_tbl d;
  if decide (sources.sid s = fulltext.docid f ∧ sources.sid s = targets.sid t)
  then [(s, f, t)] else [].

(** [TMDB.preload_db()]: [SELECT COUNT( * )] over the join, returned as
    [numrows]. *)
Definition preload_db (self : TMDB) : M Z :=
  λ st,
    if fulltext self then
      match fulltext_tbl (working st) with
      | Some ft =>
        (Return (Z.of_nat (List.length (preload_rows_fulltext ft (working st)))), st)
      | None => (Raise OperationalError, st)
      end
    else (Return (Z.of_nat (List.length (preload_rows (working st)))), st).

(** *** The connections of the threads *)

(** What [_get_connection] keeps for a thread: the pair
    [(connection, cursor)] made by [dbapi2.connect(self.db_file)] and
    [connection.cursor()]. A connection is known by the file it opened
    and by its rank among the connections opened so far. *)
Record connection_pair : Type := {
  pair_db_file : string;
  pair_rank : nat;
}.

(** An element of the pair: [self._tm_db[current_thread][index]]. *)
Inductive handle : Type :=
  | Connection (c : connection_pair)
  | Cursor (c : connection_pair).

(** The class attribute [TMDB._tm_dbs]: for each database file, the
    pairs of the threads (a thread is known by a number); and the number
    of connections opened so far in the process. *)
Record registry : Type := {
  _tm_dbs : gmap string (gmap nat connection_pair);
  opened : nat;
}.

(** The part of [__init__] that shares the connections between the
    instances of one file: [if db_file not in self._tm_dbs:
    self._tm_dbs[db_file] = {}]. The instance then keeps that dictionary
    itself as [self._tm_db]; the model reaches it through the file name,
    under which the registry never puts another dictionary. *)
Definition register (db_file : string) (reg : registry) : registry :=
  match _tm_dbs reg !! db_file with
  | Some _ => reg
  | None => {| _tm_dbs := <[db_file := ∅]> (_tm_dbs reg); opened := opened reg |}
  end.

(** [TMDB._get_connection(index)] of an instance made for [db_file],
    called by the thread [current_thread]; [index] 0 is the connection
    and any other index in range, 1, the cursor. *)
Definition _get_connection (db_file : string) (current_thread : nat) (index : bool)
    (reg : registry) : handle * registry :=
  let _tm_db := default ∅ (_tm_dbs reg !! db_file) in
  let '(c, reg) :=
    match _tm_db !! current_thread with
    | Some c => (c, reg)
    | None =>
      let c := {| pair_db_file := db_file; pair_rank := opened reg |} in
      (c, {| _tm_dbs := <[db_file := <[current_thread := c]> _tm_db]> (_tm_dbs reg);
             opened := S (opened reg) |})
    end in
  (if index then Cursor c else Connection c, reg).

(** [self.connection] and [self.cursor]. *)
Definition connection (db_file : string) (current_thread : nat) (reg : registry)
  : handle * registry := _get_connection db_file current_thread false reg.
Definition cursor (db_file : string) (current_thread : nat) (reg : registry)
  : handle * registry := _get_connection db_file current_thread true reg.

(** ** Vocabulary of the further properties *)

(** What the schema and the triggers are to keep true of a snapshot:
    the sids are distinct and not above the AUTOINCREMENT counter, every
    target refers to a source, [length] is the length of [text], and the
    table [fulltext], when there is one, mirrors [sources]. *)
Record store_ok (d : database) : Prop := {
  sids_bounded : ∀ s, s ∈ sources_tbl d → sources.sid s ≤ sources_seq d;
  sids_distinct : NoDup (sources.sid <$> sources_tbl d);
  targets_refer :
    ∀ t, t ∈ targets_tbl d → ∃ s, s ∈ sources_tbl d ∧ sources.sid s = targets.sid t;
  length_cached :
    ∀ s, s ∈ sources_tbl d →
         sources.length s = Z.of_nat (String.length (sources.text s));
  fulltext_mirrors :
    ∀ ft, fulltext_tbl d = Some ft → ft = fulltext_row_of <$> sources_tbl d;
}.

Definition state_ok (st : state) : Prop :=
  store_ok (committed st) ∧ store_ok (working st).

(** The pairs that a registry holds, with the file and the thread under
    which it holds them. *)
Definition holds (reg : registry) (db_file : string) (thread : nat) (c : connection_pair)
  : Prop :=
  ∃ per_thread, _tm_dbs reg !! db_file = Some per_thread ∧ per_thread !! thread = Some c.

(** A registry as the methods make it: a pair is kept under the file
    that it opened, its rank is below the number of connections opened,
    and no two entries hold pairs of the same rank. *)
Definition registry_ok (reg : registry) : Prop :=
  (∀ f t c, holds reg f t c → pair_db_file c = f ∧ (pair_rank c < opened reg)%nat)
  ∧ (∀ f1 t1 c1 f2 t2 c2,
       holds reg f1 t1 c1 → holds reg f2 t2 c2 → pair_rank c1 = pair_rank c2 →
       f1 = f2 ∧ t1 = t2).

(** The source row that an insert makes. *)
Definition new_source (text : string) (context : option string) (lang : string)
    (d : database) : sources.row :=
  {| sources.sid := sources_seq d + 1; sources.text := text; sources.context := context;
     sources.lang := lang; sources.length := Z.of_nat (String.length text) |}.

(** The table [targets] after an INSERT that may have been refused. *)
Definition with_target (sid : Z) (text : option string) (lang : string) (time : option Z)
    (d : database) : database :=
  match insert_target sid text lang time d with
  | Return d' => d'
  | Raise _ => d
  end.

(** The pair to which a handle belongs. *)
Definition handle_pair (h : handle) : connection_pair :=
  match h with
  | Connection c => c
  | Cursor c => c
  end.

(** The registry before the first instance is made. *)
Definition empty_registry : registry := {| _tm_dbs := ∅; opened := 0 |}.

(** A unit whose target is [None]. *)
Definition cat_unit_no_target : unitdict :=
  {[ "source" := Some "Cat"; "target" := None; "context" := Some "" ]}.

(** A connection with the pair "Hello world" / "Bonjour monde" inserted
    and not committed. *)
Definition pending_state : state :=
  exec (add_dict (env := ref_env) hello_unit "en" "fr" false) (connect (empty_database false)).






(** * Properties *)

(** ** The length bounds *)





Lemma py_max_cases (a b : Q) : py_max a b = a ∧ (b <= a)%Q ∨ py_max a b = b ∧ (a <= b)%Q.
Proof.
  unfold py_max. destruct (Qle_bool b a) eqn:Hba.
  - left. by rewrite <- Qle_bool_iff.
  - right. split; [done|]. assert (¬ (b <= a)%Q) by (rewrite <- Qle_bool_iff; congruence). lra.
Qed.





(** The bounds also cross for a query of one character that must match
    exactly, and for a query longer than the cap. *)
Example levenshtein_bounds_cross_for_one_character :
  min_levenshtein_length 1 100 = 2 ∧ max_levenshtein_length 1 100 1000 = Return 1.
Proof. split; reflexivity. Qed.

Example levenshtein_bounds_cross_above_cap :
  min_levenshtein_length 100 100 = 100 ∧ max_levenshtein_length 100 100 14 = Return 14.
Proof. split; reflexivity. Qed.

(** ** Running the bounds *)

Example min_levenshtein_length_0 : min_levenshtein_length 0 75 = 2.
Proof. reflexivity. Qed.
Example max_levenshtein_length_0 : max_levenshtein_length 0 75 1000 = Return 0.
Proof. reflexivity. Qed.
Example min_levenshtein_length_11 : min_levenshtein_length 11 75 = 9.
Proof. reflexivity. Qed.
Example max_levenshtein_length_11 : max_levenshtein_length 11 75 1000 = Return 14.
Proof. reflexivity. Qed.
Example max_levenshtein_length_no_threshold :
  max_levenshtein_length 11 0 1000 = Raise ZeroDivisionError.
Proof. reflexivity. Qed.

(** ** Properties preserved by the methods *)

Section preserves.
Context {I : state → Prop}.

Lemma preserves_ret {A} (a : A) : preserves I (ret a).
Proof. by intros st. Qed.

Lemma preserves_raise {A} (e : exn) : preserves I (@raise A e).
Proof. by intros st. Qed.

Lemma preserves_bind {A B} (m : M A) (k : A → M B) :
  preserves I m → (∀ a, preserves I (k a)) → preserves I (bind m k).
Proof.
  intros Hm Hk st HI. unfold bind. specialize (Hm st HI).
  destruct (m st) as [[a|e] st1]; simpl in *; [|done].
  by apply Hk.
Qed.

Lemma preserves_try_except {A} (body : M A) (handler : exn → option (M A)) :
  preserves I body → (∀ e h, handler e = Some h → preserves I h) →
  preserves I (try_except body handler).
Proof.
  intros Hm Hh st HI. unfold try_except. specialize (Hm st HI).
  destruct (body st) as [[a|e] st1]; simpl in *; [done|].
  destruct (handler e) as [h|] eqn:He; [|done].
  by apply (Hh e h He).
Qed.

Lemma preserves_getitem d key : preserves I (getitem d key).
Proof. unfold getitem. destruct (d !! key); [apply preserves_ret|apply preserves_raise]. Qed.

Lemma preserves_len x : preserves I (len x).
Proof. destruct x; [apply preserves_ret|apply preserves_raise]. Qed.

Lemma preserves_unpack x : preserves I (unpack x).
Proof. destruct x; [apply preserves_ret|apply preserves_raise]. Qed.

Lemma preserves_execute_select_sid text context lang :
  preserves I (execute_select_sid text context lang).
Proof. by intros st. Qed.

End preserves.

Create HintDb preserves discriminated.

#[export] Hint Resolve preserves_ret preserves_raise preserves_getitem preserves_len
  preserves_unpack preserves_execute_select_sid : preserves.

(** Splits a method into its statements, down to the ones of the hint
    database. *)
Ltac preserves_steps :=
  repeat first
    [ progress eauto with preserves
    | apply preserves_bind; [|intros ?]
    | apply preserves_try_except; [|intros [] ? [= <-]] ].

(** *** Nothing is committed before [commit()] *)

Lemma committed_int_time_time `{Environment} c :
  preserves (λ st, committed st = c) int_time_time.
Proof. by intros st. Qed.

Lemma committed_execute_insert_source text context lang length c :
  preserves (λ st, committed st = c) (execute_insert_source text context lang length).
Proof.
  intros st. unfold execute_insert_source.
  by destruct (insert_source _ _ _ _ _) as [[]|].
Qed.

Lemma committed_execute_insert_target sid text lang time c :
  preserves (λ st, committed st = c) (execute_insert_target sid text lang time).
Proof.
  intros st. unfold execute_insert_target.
  by destruct (insert_target _ _ _ _ _).
Qed.

Lemma committed_connection_rollback c :
  preserves (λ st, committed st = c) connection_rollback.
Proof. by intros st. Qed.

#[export] Hint Resolve committed_int_time_time committed_execute_insert_source
  committed_execute_insert_target committed_connection_rollback : preserves.

Section keeps_committed.
Context `{env : Environment}.

Lemma keeps_committed_run {A} (m : M A) st :
  keeps_committed m → committed (m st).2 = committed st.
Proof. intros Hm. by apply (Hm (committed st) st). Qed.

Lemma add_dict_source_keeps_committed u source_lang :
  keeps_committed (add_dict_source u source_lang).
Proof. intros c. unfold add_dict_source. preserves_steps. Qed.

Lemma add_dict_target_keeps_committed u sid target_lang :
  keeps_committed (add_dict_target u sid target_lang).
Proof. intros c. unfold add_dict_target, suppress_IntegrityError. preserves_steps. Qed.

Lemma add_dict_deferred_keeps_committed u source_lang target_lang :
  keeps_committed (add_dict u source_lang target_lang false).
Proof.
  intros c. unfold add_dict.
  unfold add_dict_source, add_dict_target, suppress_IntegrityError. preserves_steps.
Qed.

Lemma add_unit_deferred_keeps_committed u source_lang target_lang :
  keeps_committed (add_unit u source_lang target_lang false).
Proof.
  intros c. unfold add_unit.
  repeat case_match; first [apply preserves_raise|apply add_dict_deferred_keeps_committed].
Qed.

Lemma add_list_loop_keeps_committed units source_lang target_lang count :
  keeps_committed (add_list_loop units source_lang target_lang count).
Proof.
  intros c. revert count. induction units as [|u units IH]; intros count; simpl.
  - apply preserves_ret.
  - apply preserves_bind; [apply add_dict_deferred_keeps_committed|intros _; apply IH].
Qed.

Lemma add_store_loop_keeps_committed units source_lang target_lang count :
  keeps_committed (add_store_loop units source_lang target_lang count).
Proof.
  intros c. revert count. induction units as [|u units IH]; intros count; simpl.
  - apply preserves_ret.
  - case_match; [|apply IH].
    apply preserves_bind; [apply add_unit_deferred_keeps_committed|intros _; apply IH].
Qed.

(** A raising [add_dict] that was to commit rolls the transaction back:
    the changes pending on the connection are gone when the exception
    propagates. *)
Lemma add_dict_raise_rolls_back u source_lang target_lang st e st' :
  add_dict u source_lang target_lang true st = (Raise e, st') →
  working st' = committed st ∧ committed st' = committed st.
Proof.
  unfold add_dict, try_except, bind.
  pose proof (keeps_committed_run (add_dict_source u (normalize_code source_lang)) st
                (add_dict_source_keeps_committed _ _)) as Hs.
  destruct (add_dict_source _ _ st) as [[sid|e2] st2]; simpl in Hs.
  - pose proof (keeps_committed_run (add_dict_target u sid (normalize_code target_lang)) st2
                  (add_dict_target_keeps_committed _ _ _)) as Ht.
    destruct (add_dict_target _ _ _ st2) as [[[]|e3] st3]; simpl in Ht; [done|].
    intros [= _ <-]. simpl. by rewrite Ht, Hs.
  - intros [= _ <-]. simpl. by rewrite Hs.
Qed.

End keeps_committed.

(** ** Batch inserts *)

Section batch.
Context `{env : Environment}.

(** C2 (as amended). When inserting a unit of a batch raises, [add_list]
    and [add_store] let the exception through before their [commit()]:
    the committed store is what it was before the call. *)
Theorem batch_raise_commits_nothing :
  (∀ units source_lang target_lang commit st e st',
     add_list units source_lang target_lang commit st = (Raise e, st') →
     committed st' = committed st)
  ∧ (∀ units source_lang target_lang commit st e st',
     add_store units source_lang target_lang commit st = (Raise e, st') →
     committed st' = committed st).
Proof.
  split; intros units source_lang target_lang commit st e st'.
  - unfold add_list, bind.
    pose proof (keeps_committed_run (add_list_loop units source_lang target_lang 0) st
                  (add_list_loop_keeps_committed _ _ _ _)) as Hk.
    destruct (add_list_loop _ _ _ _ st) as [[n|e1] st1]; simpl in Hk.
    + by destruct commit.
    + by intros [= _ <-].
  - unfold add_store, bind.
    pose proof (keeps_committed_run (add_store_loop units source_lang target_lang 0) st
                  (add_store_loop_keeps_committed _ _ _ _)) as Hk.
    destruct (add_store_loop _ _ _ _ st) as [[n|e1] st1]; simpl in Hk.
    + by destruct commit.
    + by intros [= _ <-].
Qed.

End batch.

Lemma batch_raise_commits_nothing_witness :
  let st := connect (empty_database false) in
  let st' := exec (add_list (env := ref_env) [hello_unit; broken_unit] "en" "fr" true) st in
  add_list (env := ref_env) [hello_unit; broken_unit] "en" "fr" true st
    = (Raise (KeyError "source"), st')
  ∧ committed st' = committed st.
Proof.
  intros st st'.
  assert (Hrun : add_list (env := ref_env) [hello_unit; broken_unit] "en" "fr" true st
                 = (Raise (KeyError "source"), st')) by (vm_compute; reflexivity).
  split; [exact Hrun|].
  exact (proj1 (batch_raise_commits_nothing (env := ref_env)) _ _ _ _ _ _ _ Hrun).
Defined.

(** C2 (as stated) fails: no rollback is made. After the second unit of
    an [add_list] has raised, the rows of the first unit are still in
    the open transaction, and the next commit on the connection (here,
    of a later [add_dict]) makes them durable. The same holds for an
    [add_store] whose second unit has no language. *)
Lemma batch_raise_leaves_rows_pending :
  let st := connect (empty_database false) in
  let st1 := exec (add_list (env := ref_env) [hello_unit; broken_unit] "en" "fr" true) st in
  let st2 := exec (add_store (env := ref_env) [translated_unit; unit_without_language]
                     None None true) st in
  (add_list (env := ref_env) [hello_unit; broken_unit] "en" "fr" true st
     = (Raise (KeyError "source"), st1)
   ∧ sources.text <$> sources_tbl (working st1) = ["Hello world"]
   ∧ working st1 ≠ committed st1
   ∧ sources.text <$> sources_tbl
       (committed (exec (add_dict (env := ref_env) cat_unit "en" "fr" true) st1))
     = ["Hello world"; "Cat"])
  ∧ (add_store (env := ref_env) [translated_unit; unit_without_language] None None true st
       = (Raise (LanguageError "undefined source language"), st2)
     ∧ sources.text <$> sources_tbl (working st2) = ["Hello world"]
     ∧ working st2 ≠ committed st2).
Proof.
  split; split_and!; try (vm_compute; reflexivity); vm_compute; discriminate.
Qed.

(** ** Inserting one unit *)

Section add_unit.
Context `{env : Environment}.

(** C9. A unit for which no source language, or no target language, is
    given by the unit or by the caller: [add_unit] raises
    [LanguageError] and the state of the connection is untouched. *)
Theorem add_unit_undefined_language (u : TranslationUnit.t)
    (source_lang target_lang : option string) (commit : bool) (st : state) :
  (truthy (TranslationUnit.getsourcelanguage u) = None ∧ truthy source_lang = None)
  ∨ (truthy (TranslationUnit.gettargetlanguage u) = None ∧ truthy target_lang = None) →
  ∃ value, add_unit u source_lang target_lang commit st = (Raise (LanguageError value), st).
Proof.
  intros Hno. unfold add_unit.
  destruct Hno as [[-> ->]|[Hu Ht]].
  - by eexists.
  - rewrite Hu, Ht.
    destruct (truthy (match truthy (TranslationUnit.getsourcelanguage u) with
                      | Some _ => TranslationUnit.getsourcelanguage u
                      | None => source_lang end)); by eexists.
Qed.

(** ** Inserting a store *)

Lemma add_store_loop_spec units source_lang target_lang count st :
  add_store_loop units source_lang target_lang count st =
  (insert_units (filter passes units) source_lang target_lang;;
   ret (count + Z.of_nat (List.length (filter passes units)))) st.
Proof.
  revert count st. induction units as [|u units IH]; intros count st; simpl.
  - unfold bind, ret; simpl. do 2 f_equal. lia.
  - rewrite filter_cons. destruct (decide (passes u)) as [[Ha Hb]|Hn].
    + rewrite Ha, Hb. simpl.
      unfold bind, ret. destruct (add_unit _ _ _ _ st) as [[[]|e] st1]; [|done].
      rewrite IH. unfold bind, ret. destruct (insert_units _ _ _ st1) as [[[]|e] st2]; [|done].
      do 2 f_equal. lia.
    + assert (TranslationUnit.istranslatable u && TranslationUnit.istranslated u = false) as ->.
      { destruct (TranslationUnit.istranslatable u) eqn:?, (TranslationUnit.istranslated u) eqn:?;
          try done. by destruct Hn. }
      apply IH.
Qed.

(** [add_store] runs as [add_store_spec] does. *)
Lemma add_store_equals_spec (units : list TranslationUnit.t)
    (source_lang target_lang : option string) (commit : bool) (st : state) :
  add_store units source_lang target_lang commit st
  = add_store_spec units source_lang target_lang commit st.
Proof.
  unfold add_store, add_store_spec. unfold bind.
  rewrite add_store_loop_spec. unfold bind, ret.
  destruct (insert_units _ _ _ st) as [[[]|e] st1]; [|done].
  by destruct commit.
Qed.


End add_unit.

Lemma add_unit_undefined_language_witness :
  ∃ value, add_unit (env := ref_env) unit_without_language None None true hello_state
           = (Raise (LanguageError value), hello_state).
Proof.
  apply (add_unit_undefined_language (env := ref_env) unit_without_language None None
           true hello_state).
  left. split; reflexivity.
Defined.

Example add_store_skips_untranslated :
  let st := connect (empty_database true) in
  let '(count, st') :=
    add_store (env := ref_env) [translated_unit; untranslated_unit] None None true st in
  count = Return 1
  ∧ sources.text <$> sources_tbl (committed st') = ["Hello world"]
  ∧ targets.text <$> targets_tbl (committed st') = ["Bonjour monde"].
Proof. vm_compute. done. Qed.

(** ** Ranking *)

Lemma sort_insert_perm x l : sort_insert x l ≡ₚ x :: l.
Proof.
  induction l as [|y l IH]; simpl; [done|].
  destruct (Qle_bool _ _); [done|]. rewrite IH. apply Permutation_swap.
Qed.

Lemma sort_reverse_perm l : sort_reverse l ≡ₚ l.
Proof.
  induction l as [|x l IH]; simpl; [done|].
  by rewrite sort_insert_perm, IH.
Qed.

Lemma sort_insert_HdRel a x l :
  quality_ge a x → HdRel quality_ge a l → HdRel quality_ge a (sort_insert x l).
Proof.
  intros Hax Hal. destruct l as [|y l]; simpl; [by constructor|].
  destruct (Qle_bool _ _); constructor; [done|]. by inversion Hal.
Qed.

Lemma sort_insert_sorted x l :
  Sorted quality_ge l → Sorted quality_ge (sort_insert x l).
Proof.
  induction 1 as [|y l Hl IH Hy]; simpl; [by repeat constructor|].
  destruct (Qle_bool (suggestion.quality y) (suggestion.quality x)) eqn:Hle.
  - apply Qle_bool_iff in Hle. by repeat constructor.
  - constructor; [done|]. apply sort_insert_HdRel; [|done].
    unfold quality_ge. destruct (Qlt_le_dec (suggestion.quality y) (suggestion.quality x)) as [Hlt|]; [|done].
    apply Qlt_le_weak, Qle_bool_iff in Hlt. congruence.
Qed.

Lemma sort_reverse_sorted l : Sorted quality_ge (sort_reverse l).
Proof.
  induction l; simpl; [constructor|]. by apply sort_insert_sorted.
Qed.

Lemma sort_insert_stable q x l :
  filter (has_quality q) (sort_insert x l) = filter (has_quality q) (x :: l).
Proof.
  induction l as [|y l IH]; simpl; [done|].
  destruct (Qle_bool (suggestion.quality y) (suggestion.quality x)) eqn:Hle; [done|].
  assert (Hlt : ¬ (suggestion.quality y <= suggestion.quality x)%Q)
    by (rewrite <- Qle_bool_iff; congruence).
  rewrite (filter_cons _ y), IH, !filter_cons.
  destruct (decide (has_quality q y)) as [Hy|Hy]; [|done].
  destruct (decide (has_quality q x)) as [Hx|Hx]; [|done].
  unfold has_quality in *. destruct Hlt. rewrite Hx, Hy. apply Qle_refl.
Qed.

Lemma sort_reverse_stable q l :
  filter (has_quality q) (sort_reverse l) = filter (has_quality q) l.
Proof.
  induction l as [|x l IH]; simpl; [done|].
  by rewrite sort_insert_stable, !filter_cons, IH.
Qed.

Lemma slice_to_prefix {A} (l : list A) n : slice_to l n `prefix_of` l.
Proof. unfold slice_to. case_decide; apply prefix_take. Qed.

Lemma slice_to_length {A} (l : list A) n :
  0 ≤ n → Z.of_nat (List.length (slice_to l n)) ≤ n.
Proof.
  intros Hn. unfold slice_to. rewrite decide_True by done.
  rewrite length_take. lia.
Qed.

Lemma Sorted_prefix {A} (R : relation A) l1 l2 :
  l1 `prefix_of` l2 → Sorted R l2 → Sorted R l1.
Proof.
  intros [k ->]. induction l1 as [|x l1 IH]; simpl; [constructor|].
  intros Hs. apply Sorted_inv in Hs as [Hs Hhd]. constructor; [by apply IH|].
  destruct l1; [constructor|]. inversion Hhd. by constructor.
Qed.

Lemma filter_prefix {A} (P : A → Prop) `{!∀ x, Decision (P x)} l1 l2 :
  l1 `prefix_of` l2 → filter P l1 `prefix_of` filter P l2.
Proof. intros [k ->]. rewrite filter_app. by eexists. Qed.

(** ** Looking up suggestions *)

Section translate_unit.
Context `{env : Environment}.

Lemma score_quality self unit_source row r :
  score self unit_source row = Some r → (min_similarity self <= suggestion.quality r)%Q.
Proof.
  unfold score. destruct row as [[[[s_text t_text] s_context] ?] ?].
  destruct (Qle_bool _ _) eqn:Hle; [|done]. intros [= <-]. by apply Qle_bool_iff.
Qed.

(** The outcomes of the query. *)
Lemma execute_candidates_outcome self unit_source source_langs target_langs minlen maxlen st :
  match execute_candidates self unit_source source_langs target_langs minlen maxlen st with
  | (Return rows, st') => st' = st
  | (Raise e, st') => st' = st ∧ e = OperationalError ∧ fulltext self = true
  end.
Proof.
  unfold execute_candidates.
  destruct (fulltext self); simpl; [|done].
  destruct (3 <? _)%nat; [|done].
  destruct (fulltext_tbl (working st)); [|done].
  by destruct (_ && _).
Qed.

(** What a call that returns went through. *)
Lemma translate_unit_Return self unit_source source_langs target_langs st results st' :
  translate_unit self unit_source source_langs target_langs st = (Return results, st') →
  ∃ maxlen rows,
    max_levenshtein_length (Z.of_nat (String.length unit_source))
      (min_similarity self) (max_length self) = Return maxlen
    ∧ execute_candidates self unit_source (langs_param source_langs) (langs_param target_langs)
        (min_levenshtein_length (Z.of_nat (String.length unit_source)) (min_similarity self))
        maxlen st = (Return rows, st')
    ∧ results = slice_to (sort_reverse (omap (score self unit_source) rows))
                  (max_candidates self).
Proof.
  unfold translate_unit. destruct (max_levenshtein_length _ _ _) as [maxlen|e]; [|done].
  unfold bind, ret. destruct (execute_candidates _ _ _ _ _ _ _) as [[rows|e] st1] eqn:Hq; [|done].
  intros [= <- <-]. by exists maxlen, rows.
Qed.

(** C6 (as amended). The list that [translate_unit] returns has at most
    [max_candidates] elements when [max_candidates] is not negative; it
    is sorted by non-increasing quality, and keeps the suggestions of
    equal quality in the order in which the query retrieved them: for
    every quality, the returned suggestions of that quality are the
    first of the retrieved suggestions of that quality. *)
Theorem translate_unit_ranked self unit_source source_langs target_langs st results st' :
  translate_unit self unit_source source_langs target_langs st = (Return results, st') →
  (0 ≤ max_candidates self → Z.of_nat (List.length results) ≤ max_candidates self)
  ∧ Sorted quality_ge results
  ∧ ∃ maxlen rows,
      max_levenshtein_length (Z.of_nat (String.length unit_source))
        (min_similarity self) (max_length self) = Return maxlen
      ∧ execute_candidates self unit_source
          (langs_param source_langs) (langs_param target_langs)
          (min_levenshtein_length (Z.of_nat (String.length unit_source)) (min_similarity self))
          maxlen st = (Return rows, st')
      ∧ ∀ q, filter (has_quality q) results
             `prefix_of` filter (has_quality q) (omap (score self unit_source) rows).
Proof.
  intros (maxlen & rows & Hlen & Hrows & ->)%translate_unit_Return.
  split_and!.
  - apply slice_to_length.
  - eapply Sorted_prefix; [apply slice_to_prefix|apply sort_reverse_sorted].
  - exists maxlen, rows. split_and!; [done..|]. intros q.
    rewrite <- (sort_reverse_stable q (omap _ rows)).
    apply filter_prefix, slice_to_prefix.
Qed.

(** C7. Every suggestion that [translate_unit] returns has a quality of
    at least [min_similarity]. *)
Theorem translate_unit_quality_threshold self unit_source source_langs target_langs
    st results st' :
  translate_unit self unit_source source_langs target_langs st = (Return results, st') →
  Forall (λ r, (min_similarity self <= suggestion.quality r)%Q) results.
Proof.
  intros (maxlen & rows & Hlen & Hrows & ->)%translate_unit_Return.
  apply Forall_forall. intros r Hr.
  assert (r ∈ omap (score self unit_source) rows) as (row & _ & Hrow)%list_elem_of_omap.
  { rewrite <- (sort_reverse_perm (omap _ rows)).
    destruct (slice_to_prefix (sort_reverse (omap (score self unit_source) rows))
                (max_candidates self)) as [k Hk].
    rewrite Hk. set_solver. }
  by eapply score_quality.
Qed.

(** C3 (as amended). [translate_unit] does not check its language
    arguments: whatever they are, empty ones included, it never raises
    [LanguageError]. When it returns, it has run the candidate query
    with the normalized codes and returns the ranked suggestions made of
    its rows; the connection is left as it was. *)
Theorem translate_unit_no_language_check self unit_source source_langs target_langs st :
  match translate_unit self unit_source source_langs target_langs st with
  | (Return results, st') =>
    st' = st
    ∧ ∃ maxlen rows,
        execute_candidates self unit_source
          (langs_param source_langs) (langs_param target_langs)
          (min_levenshtein_length (Z.of_nat (String.length unit_source)) (min_similarity self))
          maxlen st = (Return rows, st)
        ∧ results = slice_to (sort_reverse (omap (score self unit_source) rows))
                      (max_candidates self)
  | (Raise e, st') => st' = st ∧ ∀ value, e ≠ LanguageError value
  end.
Proof.
  unfold translate_unit, max_levenshtein_length.
  destruct (Qeq_bool _ _) eqn:Hz.
  { simpl. auto. }
  unfold bind, ret.
  pose proof (execute_candidates_outcome self unit_source (langs_param source_langs)
    (langs_param target_langs)
    (min_levenshtein_length (Z.of_nat (String.length unit_source)) (min_similarity self))
    (Qfloor (py_min (inject_Z (Z.of_nat (String.length unit_source)) / (min_similarity self / 100))
       (inject_Z (max_length self)))) st) as Hq.
  destruct (execute_candidates _ _ _ _ _ _ _) as [[rows|e] st1] eqn:Hrows.
  - subst st1. split; [done|]. eauto.
  - destruct Hq as (-> & -> & ?). auto.
Qed.

Lemma select_candidates_where source_langs target_langs minlen maxlen d row :
  row ∈ select_candidates source_langs target_langs minlen maxlen d →
  ∃ s t, s ∈ sources_tbl d ∧ t ∈ targets_tbl d ∧ row = candidate_of s t
         ∧ candidate_where source_langs target_langs minlen maxlen s t.
Proof.
  unfold select_candidates.
  intros (t & (s & Hrow & Hs)%list_elem_of_bind & Ht)%list_elem_of_bind.
  case_decide; [|by apply not_elem_of_nil in Hrow].
  apply list_elem_of_singleton in Hrow. eauto 10.
Qed.

Lemma select_candidates_fulltext_where source_langs target_langs minlen maxlen
    search_str ft d row :
  row ∈ select_candidates_fulltext source_langs target_langs minlen maxlen search_str ft d →
  ∃ s t, s ∈ sources_tbl d ∧ t ∈ targets_tbl d ∧ row = candidate_of s t
         ∧ candidate_where source_langs target_langs minlen maxlen s t.
Proof.
  unfold select_candidates_fulltext.
  intros (t & (s & (f & Hrow & Hf)%list_elem_of_bind & Hs)%list_elem_of_bind & Ht)
    %list_elem_of_bind.
  case_decide as Hw; [|by apply not_elem_of_nil in Hrow].
  apply list_elem_of_singleton in Hrow. destruct Hw. eauto 10.
Qed.

Lemma execute_candidates_where self unit_source source_langs target_langs minlen maxlen
    st rows st' row :
  execute_candidates self unit_source source_langs target_langs minlen maxlen st
  = (Return rows, st') →
  row ∈ rows →
  ∃ s t, s ∈ sources_tbl (working st) ∧ t ∈ targets_tbl (working st)
         ∧ row = candidate_of s t
         ∧ candidate_where source_langs target_langs minlen maxlen s t.
Proof.
  unfold execute_candidates. destruct (fulltext self && _).
  - destruct (fulltext_tbl (working st)); [|done]. destruct (_ && _); [done|].
    intros [= <- <-]. apply select_candidates_fulltext_where.
  - intros [= <- <-]. apply select_candidates_where.
Qed.

(** Every suggestion comes from a source row whose language is the
    bound source parameter and a target row of it whose language is the
    bound target parameter. *)
Lemma translate_unit_languages self unit_source source_langs target_langs st results st' r :
  translate_unit self unit_source source_langs target_langs st = (Return results, st') →
  r ∈ results →
  ∃ s t, s ∈ sources_tbl (working st) ∧ t ∈ targets_tbl (working st)
    ∧ sources.sid s = targets.sid t
    ∧ sources.lang s = langs_param source_langs
    ∧ targets.lang t = langs_param target_langs
    ∧ suggestion.source r = sources.text s
    ∧ suggestion.target r = targets.text t.
Proof.
  unfold translate_unit. destruct (max_levenshtein_length _ _ _) as [maxlen|e]; [|done].
  unfold bind, ret. destruct (execute_candidates _ _ _ _ _ _ _) as [[rows|e] st1] eqn:Hq; [|done].
  intros [= <- <-] Hr.
  assert (r ∈ omap (score self unit_source) rows) as (row & Hrow & Hscore)%list_elem_of_omap.
  { rewrite <- (sort_reverse_perm (omap _ rows)).
    destruct (slice_to_prefix (sort_reverse (omap (score self unit_source) rows))
                (max_candidates self)) as [k Hk].
    rewrite Hk. set_solver. }
  assert (∃ s t, s ∈ sources_tbl (working st) ∧ t ∈ targets_tbl (working st)
            ∧ row = candidate_of s t
            ∧ candidate_where (langs_param source_langs) (langs_param target_langs)
                (min_levenshtein_length (Z.of_nat (String.length unit_source))
                   (min_similarity self)) maxlen s t)
    as (s & t & Hs & Ht & -> & Hw).
  { by eapply execute_candidates_where. }
  exists s, t. destruct Hw as (? & ? & ? & _). revert Hscore. unfold score, candidate_of.
  destruct (Qle_bool _ _); [|done]. intros [= <-]. by split_and!.
Qed.
End translate_unit.

(** ** The unique indices *)

Lemma filter_nil_not_Exists {A} (P : A → Prop) `{!∀ x, Decision (P x)} (l : list A) :
  filter P l = [] ↔ ¬ Exists P l.
Proof.
  rewrite Exists_exists. split.
  - intros Hnil (x & Hx & HP). assert (x ∈ filter P l) as Hin by (by apply list_elem_of_filter).
    rewrite Hnil in Hin. by apply not_elem_of_nil in Hin.
  - intros Hno. destruct (filter P l) as [|x k] eqn:Hf; [done|].
    assert (x ∈ filter P l) as [HP Hx]%list_elem_of_filter by (rewrite Hf; left).
    destruct Hno; eauto.
Qed.

Lemma filter_singleton_of_unique {A} (P : A → Prop) `{!∀ x, Decision (P x)} (l : list A) :
  (List.length (filter P l) ≤ 1)%nat → Exists P l → ∃ x, filter P l = [x].
Proof.
  intros Hlen Hex. destruct (filter P l) as [|x [|y k]] eqn:Hf; simpl in Hlen; [|by eauto|lia].
  by apply filter_nil_not_Exists in Hf.
Qed.

(** On a store that mirrors its sources, the trigger of an insert is
    never refused: the next sid is not yet a docid. *)
Lemma store_ok_fresh_docid d :
  store_ok d →
  ¬ Exists (λ f, fulltext.docid f = sources_seq d + 1) (default [] (fulltext_tbl d)).
Proof.
  intros Hok. destruct (fulltext_tbl d) as [ft|] eqn:Hft; simpl; [|by inversion 1].
  rewrite (fulltext_mirrors d Hok ft Hft), Exists_exists.
  intros (f & (s & -> & Hs)%list_elem_of_fmap & Hf). simpl in Hf.
  apply (sids_bounded d Hok) in Hs. lia.
Qed.

Section unique.
Context `{env : Environment}.

(** C8. Inserting the same target twice, for a source id, a text and a
    language: both inserts return normally, afterwards the table has
    exactly one row for the triple, the same row as after the first
    insert; when the triple was new, its timestamp is the clock reading
    of the first insert. *)
Theorem add_dict_target_twice (u : unitdict) (sid : Z) (target_lang text : string)
    (st : state) :
  u !! "target" = Some (Some text) →
  targets_unique (working st) →
  ∃ st1 st2 r,
    add_dict_target u sid target_lang st = (Return (), st1)
    ∧ add_dict_target u sid target_lang st1 = (Return (), st2)
    ∧ filter (targets_uniq_conflict sid text target_lang) (targets_tbl (working st2)) = [r]
    ∧ filter (targets_uniq_conflict sid text target_lang) (targets_tbl (working st1)) = [r]
    ∧ (filter (targets_uniq_conflict sid text target_lang) (targets_tbl (working st)) = [r]
       ∨ filter (targets_uniq_conflict sid text target_lang) (targets_tbl (working st)) = []
         ∧ targets.time r = Some (time_time (clock st))).
Proof.
  intros Hu Huniq.
  assert (Hdup : ∀ st', Exists (targets_uniq_conflict sid text target_lang)
                          (targets_tbl (working st')) →
            ∃ st'', add_dict_target u sid target_lang st' = (Return (), st'')
                    ∧ working st'' = working st').
  { intros st' Hex. unfold add_dict_target, suppress_IntegrityError, try_except, bind,
      getitem, int_time_time, execute_insert_target, insert_target, ret. rewrite Hu. simpl.
    rewrite decide_True by done. by eexists. }
  destruct (decide (Exists (targets_uniq_conflict sid text target_lang)
                      (targets_tbl (working st)))) as [Hex|Hnew].
  - destruct (Hdup st Hex) as (st1 & Hrun1 & Hw1).
    destruct (Hdup st1) as (st2 & Hrun2 & Hw2); [by rewrite Hw1|].
    destruct (filter_singleton_of_unique _ _ (Huniq sid text target_lang) Hex) as [r Hr].
    exists st1, st2, r. rewrite Hw2, Hw1. split_and!; [done..|by left].
  - assert (Hnil := proj2 (filter_nil_not_Exists _ _) Hnew).
    set (r := {| targets.tid := targets_seq (working st) + 1; targets.sid := sid;
                 targets.text := text; targets.lang := target_lang;
                 targets.time := Some (time_time (clock st)) |}).
    assert (∃ st1, add_dict_target u sid target_lang st = (Return (), st1)
                   ∧ targets_tbl (working st1) = targets_tbl (working st) ++ [r])
      as (st1 & Hrun1 & Hrows1).
    { unfold add_dict_target, suppress_IntegrityError, try_except, bind,
        getitem, int_time_time, execute_insert_target, insert_target, ret. rewrite Hu. simpl.
      rewrite decide_False by done. by eexists. }
    assert (filter (targets_uniq_conflict sid text target_lang) (targets_tbl (working st1))
            = [r]) as Hr1.
    { rewrite Hrows1, filter_app, Hnil. simpl. by rewrite filter_cons, decide_True. }
    destruct (Hdup st1) as (st2 & Hrun2 & Hw2).
    { rewrite Hrows1. apply Exists_app. right. by constructor. }
    exists st1, st2, r. rewrite Hw2. split_and!; [done..|by right].
Qed.

Lemma select_sid_conflict (text context lang : string) (d : database) :
  select_sid (Some text) (Some context) lang d
  = sources.sid <$> head (filter (sources_uniq_conflict text (Some context) lang)
                            (sources_tbl d)).
Proof.
  unfold select_sid. f_equal. f_equal. apply list_filter_iff. intros r.
  unfold sources_uniq_conflict. split.
  - by intros ([= ?] & ? & ? & ?).
  - intros (-> & ? & ? & ?). done.
Qed.

(** Inserting a source with a context that is not [None] twice, on a
    store that keeps its integrity and its unique index: the same sid
    both times, and one row with that key. *)
Lemma add_dict_source_twice (u : unitdict) (source_lang text context : string) (st : state) :
  u !! "source" = Some (Some text) →
  u !! "context" = Some (Some context) →
  store_ok (working st) →
  sources_unique (working st) →
  ∃ sid st1 r,
    add_dict_source u source_lang st = (Return sid, st1)
    ∧ add_dict_source u source_lang st1 = (Return sid, st1)
    ∧ filter (sources_uniq_conflict text (Some context) source_lang)
        (sources_tbl (working st1)) = [r]
    ∧ sources.sid r = sid.
Proof.
  intros Hs Hc Hok Huniq.
  assert (Hdup : ∀ st' r, filter (sources_uniq_conflict text (Some context) source_lang)
                            (sources_tbl (working st')) = [r] →
            add_dict_source u source_lang st' = (Return (sources.sid r), st')).
  { intros st' r Hr. unfold add_dict_source, try_except, bind, getitem, len,
      execute_insert_source, insert_source, ret. rewrite Hs, Hc. simpl.
    rewrite decide_True.
    - unfold execute_select_sid. simpl. by rewrite select_sid_conflict, Hr.
    - destruct (decide (Exists (sources_uniq_conflict text (Some context) source_lang)
                          (sources_tbl (working st')))) as [|Hno]; [done|].
      apply (filter_nil_not_Exists _ _) in Hno. congruence. }
  destruct (decide (Exists (sources_uniq_conflict text (Some context) source_lang)
                      (sources_tbl (working st)))) as [Hex|Hnew].
  - destruct (filter_singleton_of_unique _ _ (Huniq text (Some context) source_lang) Hex)
      as [r Hr].
    exists (sources.sid r), st, r. by rewrite !(Hdup st r Hr).
  - assert (Hnil := proj2 (filter_nil_not_Exists _ _) Hnew).
    set (r := {| sources.sid := sources_seq (working st) + 1; sources.text := text;
                 sources.context := Some context; sources.lang := source_lang;
                 sources.length := Z.of_nat (String.length text) |}).
    assert (∃ st1, add_dict_source u source_lang st = (Return (sources.sid r), st1)
                   ∧ sources_tbl (working st1) = sources_tbl (working st) ++ [r])
      as (st1 & Hrun1 & Hrows1).
    { unfold add_dict_source, try_except, bind, getitem, len,
        execute_insert_source, insert_source, ret. rewrite Hs, Hc. simpl.
      rewrite decide_False by done.
      rewrite decide_False by (by apply store_ok_fresh_docid). by eexists. }
    assert (filter (sources_uniq_conflict text (Some context) source_lang)
              (sources_tbl (working st1)) = [r]) as Hr1.
    { rewrite Hrows1, filter_app, Hnil. simpl. rewrite filter_cons, decide_True; [done|].
      unfold sources_uniq_conflict. eauto. }
    exists (sources.sid r), st1, r. split_and!; [done|by apply Hdup|done..].
Qed.

End unique.

(** ** The unique indices hold in every state the methods reach *)

Lemma empty_database_unique fts3 :
  state_unique (connect (empty_database fts3)).
Proof. repeat split; intros ???; simpl; lia. Qed.

Lemma insert_source_unique text context lang length d sid d' :
  insert_source text context lang length d = Return (sid, d') →
  sources_unique d → sources_unique d' ∧ targets_tbl d' = targets_tbl d.
Proof.
  unfold insert_source. destruct text as [text|]; [|done].
  case_decide as Hex; [done|]. case_decide; [done|]. intros [= <- <-] Huniq. split; [|done].
  intros text' context' lang'. simpl. rewrite filter_app, length_app, filter_cons, filter_nil.
  case_decide as Hkey; simpl; [|specialize (Huniq text' context' lang'); lia].
  destruct Hkey as (Ht & Hsome & Hc & Hl). simpl in *. subst.
  apply (filter_nil_not_Exists _ _) in Hex. by rewrite Hex.
Qed.

Lemma insert_target_unique sid text lang time d d' :
  insert_target sid text lang time d = Return d' →
  targets_unique d → targets_unique d' ∧ sources_tbl d' = sources_tbl d.
Proof.
  unfold insert_target. destruct text as [text|]; [|done].
  case_decide as Hex; [done|]. intros [= <-] Huniq. split; [|done].
  intros sid' text' lang'. simpl. rewrite filter_app, length_app, filter_cons, filter_nil.
  case_decide as Hkey; simpl; [|specialize (Huniq sid' text' lang'); lia].
  destruct Hkey as (Hs & Ht & Hl). simpl in *. subst.
  apply (filter_nil_not_Exists _ _) in Hex. by rewrite Hex.
Qed.

Lemma unique_int_time_time `{Environment} : preserves state_unique int_time_time.
Proof. by intros st. Qed.

Lemma unique_execute_insert_source text context lang length :
  preserves state_unique (execute_insert_source text context lang length).
Proof.
  intros st (Hc & Hs & Ht). unfold execute_insert_source.
  destruct (insert_source _ _ _ _ _) as [[sid d]|] eqn:Hins; [|done].
  destruct (insert_source_unique _ _ _ _ _ _ _ Hins Hs) as [Hs' Ht'].
  split; [done|]. split; [done|]. unfold targets_unique. simpl. by rewrite Ht'.
Qed.

Lemma unique_execute_insert_target sid text lang time :
  preserves state_unique (execute_insert_target sid text lang time).
Proof.
  intros st (Hc & Hs & Ht). unfold execute_insert_target.
  destruct (insert_target _ _ _ _ _) as [d|] eqn:Hins; [|done].
  destruct (insert_target_unique _ _ _ _ _ _ Hins Ht) as [Ht' Hs'].
  split; [done|]. split; [|done]. unfold sources_unique. simpl. by rewrite Hs'.
Qed.

Lemma unique_connection_commit : preserves state_unique connection_commit.
Proof. by intros st (Hc & Hw). Qed.

Lemma unique_connection_rollback : preserves state_unique connection_rollback.
Proof. by intros st (Hc & Hw). Qed.

#[export] Hint Resolve unique_int_time_time unique_execute_insert_source
  unique_execute_insert_target unique_connection_commit unique_connection_rollback
  : preserves.

Section state_unique.
Context `{env : Environment}.

Lemma add_dict_unique u source_lang target_lang commit :
  preserves state_unique (add_dict u source_lang target_lang commit).
Proof.
  unfold add_dict, add_dict_source, add_dict_target, suppress_IntegrityError.
  destruct commit; preserves_steps.
Qed.

Lemma add_unit_unique u source_lang target_lang commit :
  preserves state_unique (add_unit u source_lang target_lang commit).
Proof.
  unfold add_unit. repeat case_match; first [apply preserves_raise|apply add_dict_unique].
Qed.

Lemma add_list_unique units source_lang target_lang commit :
  preserves state_unique (add_list units source_lang target_lang commit).
Proof.
  unfold add_list. apply preserves_bind; [|intros count; destruct commit; preserves_steps].
  generalize 0. induction units as [|u units IH]; intros count; simpl.
  - apply preserves_ret.
  - apply preserves_bind; [apply add_dict_unique|intros _; apply IH].
Qed.

Lemma add_store_unique units source_lang target_lang commit :
  preserves state_unique (add_store units source_lang target_lang commit).
Proof.
  unfold add_store. apply preserves_bind; [|intros count; destruct commit; preserves_steps].
  generalize 0. induction units as [|u units IH]; intros count; simpl.
  - apply preserves_ret.
  - case_match; [|apply IH].
    apply preserves_bind; [apply add_unit_unique|intros _; apply IH].
Qed.

End state_unique.

(** ** The methods on the reference environment *)

Lemma translate_unit_ranked_witness :
  translate_unit (env := ref_env) (default_TMDB false) "Hello world"
    (LangStr "en") (LangStr "fr") ranking_state = (Return ranking_results, ranking_state)
  ∧ ((0 ≤ 3 → Z.of_nat (List.length ranking_results) ≤ 3)
     ∧ Sorted quality_ge ranking_results
     ∧ ∃ maxlen rows,
         max_levenshtein_length 11 75 1000 = Return maxlen
         ∧ execute_candidates (env := ref_env) (default_TMDB false) "Hello world" "en" "fr"
             (min_levenshtein_length 11 75) maxlen ranking_state
           = (Return rows, ranking_state)
         ∧ ∀ q, filter (has_quality q) ranking_results
                `prefix_of` filter (has_quality q)
                              (omap (score (env := ref_env) (default_TMDB false)
                                       "Hello world") rows)).
Proof.
  assert (Hrun : translate_unit (env := ref_env) (default_TMDB false) "Hello world"
                   (LangStr "en") (LangStr "fr") ranking_state
                 = (Return ranking_results, ranking_state)) by (vm_compute; reflexivity).
  split; [exact Hrun|].
  apply (translate_unit_ranked (env := ref_env) (default_TMDB false) "Hello world"
           (LangStr "en") (LangStr "fr") ranking_state ranking_results ranking_state Hrun).
Defined.

Lemma translate_unit_quality_threshold_witness :
  translate_unit (env := ref_env) (default_TMDB false) "Hello world"
    (LangStr "en") (LangStr "fr") ranking_state = (Return ranking_results, ranking_state)
  ∧ Forall (λ r, (75 <= suggestion.quality r)%Q) ranking_results.
Proof.
  assert (Hrun : translate_unit (env := ref_env) (default_TMDB false) "Hello world"
                   (LangStr "en") (LangStr "fr") ranking_state
                 = (Return ranking_results, ranking_state)) by (vm_compute; reflexivity).
  split; [exact Hrun|].
  apply (translate_unit_quality_threshold (env := ref_env) (default_TMDB false)
           "Hello world" (LangStr "en") (LangStr "fr") ranking_state ranking_results
           ranking_state Hrun).
Defined.

(** The fourth close source, "Hello, world", has the quality of the
    second and the third result and was retrieved after them: it is the
    one that the cap of 3 cuts off. *)
Example translate_unit_cuts_last_retrieved :
  translate_unit (env := ref_env)
    {| max_candidates := 10; min_similarity := 75; max_length := 1000; fulltext := false |}
    "Hello world" (LangStr "en") (LangStr "fr") ranking_state
  = (Return (ranking_results ++
             [ {| suggestion.source := "Hello, world"; suggestion.target := "Bonjour, monde";
                  suggestion.context := Some ""; suggestion.quality := 275 # 3 |} ]),
     ranking_state).
Proof. vm_compute. reflexivity. Qed.

(** C6 (as stated) fails for a negative [max_candidates], which cuts
    from the end of the list: with -1, three of the four suggestions are
    returned. *)
Lemma translate_unit_negative_max_candidates :
  let self :=
    {| max_candidates := -1; min_similarity := 75; max_length := 1000; fulltext := false |} in
  translate_unit (env := ref_env) self "Hello world" (LangStr "en") (LangStr "fr")
    ranking_state
  = (Return ranking_results, ranking_state)
  ∧ ¬ Z.of_nat (List.length ranking_results) ≤ max_candidates self.
Proof. split; [vm_compute; reflexivity|simpl; lia]. Qed.

(** The order of retrieval is the order of the targets: with a second
    target of the first source stored last, the suggestion made of it is
    the last of its quality, behind the one of the second source. *)
Example translate_unit_retrieval_order :
  let st :=
    exec (add_list (env := ref_env)
            [ pair_unit "Hello worlds" "Bonjour mondes";
              pair_unit "Hello world!" "Bonjour monde !";
              pair_unit "Hello worlds" "Salut mondes" ] "en" "fr" true)
         (connect (empty_database false)) in
  ∃ results,
    translate_unit (env := ref_env)
      {| max_candidates := 2; min_similarity := 75; max_length := 1000; fulltext := false |}
      "Hello world" (LangStr "en") (LangStr "fr") st
    = (Return results, st)
    ∧ suggestion.target <$> results = ["Bonjour mondes"; "Bonjour monde !"].
Proof. eexists. split; vm_compute; reflexivity. Qed.

(** C3 (as stated) fails: with the empty string, or the empty list, as
    languages, [translate_unit] raises nothing; it runs the query and
    returns the pair stored under the empty language code. *)
Lemma translate_unit_empty_language_returns :
  translate_unit (env := ref_env) (default_TMDB false) "Hello world"
    (LangStr "") (LangStr "") hello_state_no_language
  = (Return [hello_result], hello_state_no_language)
  ∧ translate_unit (env := ref_env) (default_TMDB false) "Hello world"
      (LangList []) (LangList []) hello_state_no_language
    = (Return [hello_result], hello_state_no_language)
  ∧ translate_unit (env := ref_env) (default_TMDB false) "Hello world"
      (LangStr "") (LangStr "") hello_state
    = (Return [], hello_state).
Proof. split_and!; vm_compute; reflexivity. Qed.

(** C1 fails on the code: a list of languages is bound as one string,
    the codes joined by commas, and compared as a whole. With the pair
    "Hello world" (en) / "Bonjour monde" (fr) stored, the query for the
    source languages en and de finds nothing, while the query for en
    alone, or for the list of en alone, finds the pair. *)
Lemma translate_unit_language_list_misses :
  langs_param (env := ref_env) (LangList ["en"; "de"]) = "en,de"
  ∧ translate_unit (env := ref_env) (default_TMDB false) "Hello world"
      (LangList ["en"; "de"]) (LangStr "fr") hello_state
    = (Return [], hello_state)
  ∧ translate_unit (env := ref_env) (default_TMDB false) "Hello world"
      (LangStr "en") (LangStr "fr") hello_state
    = (Return [hello_result], hello_state)
  ∧ translate_unit (env := ref_env) (default_TMDB false) "Hello world"
      (LangList ["en"]) (LangStr "fr") hello_state
    = (Return [hello_result], hello_state).
Proof. split_and!; vm_compute; reflexivity. Qed.

(** C5 fails on the code for a context that is [None]: the unique index
    does not see two NULL contexts as equal, so the second INSERT of the
    same source succeeds. The two inserts give the sids 1 and 2 and leave
    two rows for the triple. *)
Lemma add_dict_source_null_context_duplicates :
  let st := connect (empty_database false) in
  let st1 := exec (add_dict_source hello_unit_no_context "en") st in
  let st2 := exec (add_dict_source hello_unit_no_context "en") st1 in
  add_dict_source hello_unit_no_context "en" st = (Return 1, st1)
  ∧ add_dict_source hello_unit_no_context "en" st1 = (Return 2, st2)
  ∧ sources_tbl (working st2)
    = [ {| sources.sid := 1; sources.text := "Hello world"; sources.context := None;
           sources.lang := "en"; sources.length := 11 |};
        {| sources.sid := 2; sources.text := "Hello world"; sources.context := None;
           sources.lang := "en"; sources.length := 11 |} ].
Proof. split_and!; vm_compute; reflexivity. Qed.

(** The same through [add_dict]: two sources, and a target for each. *)
Example add_dict_null_context_duplicates :
  let st := exec (add_dict (env := ref_env) hello_unit_no_context "en" "fr" true)
              (exec (add_dict (env := ref_env) hello_unit_no_context "en" "fr" true)
                 (connect (empty_database false))) in
  sources.sid <$> sources_tbl (committed st) = [1; 2]
  ∧ targets.sid <$> targets_tbl (committed st) = [1; 2].
Proof. split; vm_compute; reflexivity. Qed.

(** With a context that is a string, the second [add_dict] adds nothing
    and the target keeps the time of the first. *)
Example add_dict_twice :
  let st := exec (add_dict (env := ref_env) hello_unit "en" "fr" true)
              (exec (add_dict (env := ref_env) hello_unit "en" "fr" true)
                 (connect (empty_database false))) in
  sources.sid <$> sources_tbl (committed st) = [1]
  ∧ targets_tbl (committed st)
    = [ {| targets.tid := 1; targets.sid := 1; targets.text := "Bonjour monde";
           targets.lang := "fr"; targets.time := Some 1700000000 |} ]
  ∧ clock st = 2%nat.
Proof. split_and!; vm_compute; reflexivity. Qed.

Lemma add_dict_target_twice_witness :
  let st := connect (empty_database false) in
  ∃ st1 st2 r,
    add_dict_target (env := ref_env) hello_unit 1 "fr" st = (Return (), st1)
    ∧ add_dict_target (env := ref_env) hello_unit 1 "fr" st1 = (Return (), st2)
    ∧ filter (targets_uniq_conflict 1 "Bonjour monde" "fr") (targets_tbl (working st2)) = [r]
    ∧ filter (targets_uniq_conflict 1 "Bonjour monde" "fr") (targets_tbl (working st1)) = [r]
    ∧ (filter (targets_uniq_conflict 1 "Bonjour monde" "fr") (targets_tbl (working st)) = [r]
       ∨ filter (targets_uniq_conflict 1 "Bonjour monde" "fr") (targets_tbl (working st)) = []
         ∧ targets.time r = Some (time_time (Environment := ref_env) (clock st))).
Proof.
  apply (add_dict_target_twice (env := ref_env) hello_unit 1 "fr" "Bonjour monde"
           (connect (empty_database false))).
  - reflexivity.
  - intros sid text lang. simpl. lia.
Defined.

(** The full-text query: a store with the fts3 table, and a query of
    more than 3 words of 3 characters or more. One word in six differs,
    the pair is found with a quality below 100. *)
Example translate_unit_fulltext :
  let st := exec (add_dict (env := ref_env)
                    (pair_unit "The cat sat on the mat" "Le chat") "en" "fr" true)
              (connect (empty_database true)) in
  unit_words "The cat sat on the rug" = ["The"; "cat"; "sat"; "the"; "rug"]
  ∧ translate_unit (env := ref_env) (default_TMDB true) "The cat sat on the rug"
      (LangStr "en") (LangStr "fr") st
    = (Return [ {| suggestion.source := "The cat sat on the mat";
                   suggestion.target := "Le chat"; suggestion.context := Some "";
                   suggestion.quality := 950 # 11 |} ], st).
Proof. split; vm_compute; reflexivity. Qed.

(** A query with a word that is an operator of the full-text query
    language: the engine refuses the expression once a stored pair of
    the languages and the window of lengths makes it search [fulltext];
    on a store without such a pair the same query returns nothing. *)
Example translate_unit_malformed_match :
  let st := exec (add_dict (env := ref_env)
                    (pair_unit "The cat sat on the mat" "Le chat") "en" "fr" true)
              (connect (empty_database true)) in
  unit_words "The cat AND the dog sat" = ["The"; "cat"; "AND"; "the"; "dog"; "sat"]
  ∧ translate_unit (env := ref_env) (default_TMDB true) "The cat AND the dog sat"
      (LangStr "en") (LangStr "fr") st
    = (Raise OperationalError, st)
  ∧ translate_unit (env := ref_env) (default_TMDB true) "The cat AND the dog sat"
      (LangStr "de") (LangStr "fr") st
    = (Return [], st)
  ∧ translate_unit (env := ref_env) (default_TMDB true) "The cat AND the dog sat"
      (LangStr "en") (LangStr "fr") (connect (empty_database true))
    = (Return [], connect (empty_database true)).
Proof. split_and!; vm_compute; reflexivity. Qed.

(** A table [fulltext] that holds a docid which [sources] is about to
    give out: the trigger refuses the new source, the SELECT of the
    handler finds no row, and [add_dict] raises [TypeError]. *)
Example add_dict_refused_by_trigger :
  let st :=
    connect {| sources_tbl := []; sources_seq := 0; targets_tbl := []; targets_seq := 0;
               fulltext_tbl := Some [ {| fulltext.docid := 1; fulltext.text := "Cat" |} ] |} in
  insert_source (Some "Hello world") (Some "") "en" 11 (working st) = Raise IntegrityError
  ∧ add_dict (env := ref_env) hello_unit "en" "fr" true st = (Raise TypeError, st).
Proof. split; vm_compute; reflexivity. Qed.

(** ** More on [add_dict] *)

Section add_dict.
Context `{env : Environment}.

(** The inner [try] of [add_dict] on a unit with a source and the key
    [context]: it returns the sid of the first row with the key of the
    unit when there is one, and otherwise the sid of the row it appends;
    when the trigger refuses that row, the SELECT finds nothing and
    unpacking its [None] raises [TypeError]. *)
Lemma add_dict_source_outcome u lang text context st :
  u !! "source" = Some (Some text) → u !! "context" = Some context →
  match head (filter (sources_uniq_conflict text context lang) (sources_tbl (working st))) with
  | Some r => add_dict_source u lang st = (Return (sources.sid r), st)
  | None =>
    if decide (Exists (λ f, fulltext.docid f = sources_seq (working st) + 1)
                 (default [] (fulltext_tbl (working st))))
    then add_dict_source u lang st = (Raise TypeError, st)
    else
    ∃ st1, add_dict_source u lang st = (Return (sources_seq (working st) + 1), st1)
      ∧ committed st1 = committed st ∧ clock st1 = clock st
      ∧ sources_tbl (working st1)
        = sources_tbl (working st) ++ [new_source text context lang (working st)]
      ∧ sources_seq (working st1) = sources_seq (working st) + 1
      ∧ targets_tbl (working st1) = targets_tbl (working st)
      ∧ targets_seq (working st1) = targets_seq (working st)
      ∧ fulltext_tbl (working st1)
        = (λ ft, ft ++ [fulltext_row_of (new_source text context lang (working st))])
            <$> fulltext_tbl (working st)
  end.
Proof.
  intros Hs Hc.
  destruct (head _) as [r|] eqn:Hhead.
  - assert (Hex : Exists (sources_uniq_conflict text context lang) (sources_tbl (working st))).
    { destruct (decide (Exists (sources_uniq_conflict text context lang)
                          (sources_tbl (working st)))) as [|Hno]; [done|].
      apply (filter_nil_not_Exists _ _) in Hno. by rewrite Hno in Hhead. }
    assert (is_Some context) as [c ->].
    { apply Exists_exists in Hex as (? & _ & _ & ? & _). done. }
    unfold add_dict_source, try_except, bind, getitem, len,
      execute_insert_source, insert_source, ret. rewrite Hs, Hc. simpl.
    rewrite decide_True by done. unfold execute_select_sid. simpl.
    by rewrite select_sid_conflict, Hhead.
  - assert (Hno : ¬ Exists (sources_uniq_conflict text context lang)
                      (sources_tbl (working st))).
    { intros Hex. apply head_None in Hhead. by apply (filter_nil_not_Exists _ _) in Hhead. }
    unfold add_dict_source, try_except, bind, getitem, len,
      execute_insert_source, insert_source, ret. rewrite Hs, Hc. simpl.
    destruct (decide (Exists (sources_uniq_conflict text context lang)
                        (sources_tbl (working st)))) as [|_]; [done|].
    destruct (decide (Exists _ (default [] (fulltext_tbl (working st)))))
      as [Hstale|Hfresh]; [|by eexists].
    unfold execute_select_sid, select_sid. simpl.
    replace (filter _ (sources_tbl (working st))) with (@nil sources.row); [done|].
    symmetry. apply (filter_nil_not_Exists _ _). rewrite Exists_exists.
    intros (r & Hr & [= Ht] & Hsome & Hcr & Hl). apply Hno, Exists_exists.
    by exists r.
Qed.

(** On a store that keeps its integrity the trigger is not refused. *)
Lemma add_dict_source_outcome_ok u lang text context st :
  u !! "source" = Some (Some text) → u !! "context" = Some context →
  store_ok (working st) →
  match head (filter (sources_uniq_conflict text context lang) (sources_tbl (working st))) with
  | Some r => add_dict_source u lang st = (Return (sources.sid r), st)
  | None =>
    ∃ st1, add_dict_source u lang st = (Return (sources_seq (working st) + 1), st1)
      ∧ committed st1 = committed st ∧ clock st1 = clock st
      ∧ sources_tbl (working st1)
        = sources_tbl (working st) ++ [new_source text context lang (working st)]
      ∧ sources_seq (working st1) = sources_seq (working st) + 1
      ∧ targets_tbl (working st1) = targets_tbl (working st)
      ∧ targets_seq (working st1) = targets_seq (working st)
      ∧ fulltext_tbl (working st1)
        = (λ ft, ft ++ [fulltext_row_of (new_source text context lang (working st))])
            <$> fulltext_tbl (working st)
  end.
Proof.
  intros Hs Hc Hok. pose proof (add_dict_source_outcome u lang text context st Hs Hc) as Hout.
  destruct (head _); [done|]. by rewrite decide_False in Hout by by apply store_ok_fresh_docid.
Qed.

(** The [with] block of [add_dict] on a unit with the key [target]: it
    reads the clock, tries the INSERT and returns, whether the row was
    taken or refused. *)
Lemma add_dict_target_outcome u sid lang target st :
  u !! "target" = Some target →
  add_dict_target u sid lang st
  = (Return (),
     {| committed := committed st;
        working := with_target sid target lang (Some (time_time (clock st))) (working st);
        clock := S (clock st) |}).
Proof.
  intros Ht. unfold add_dict_target, suppress_IntegrityError, try_except, bind, getitem,
    int_time_time, execute_insert_target, with_target, ret. rewrite Ht. simpl.
  destruct (insert_target _ _ _ _ _) as [d'|e] eqn:Hins; [done|].
  assert (e = IntegrityError) as ->; [|done].
  revert Hins. unfold insert_target. destruct target; [|by intros [= <-]].
  case_decide; [by intros [= <-]|done].
Qed.

(** When [add_dict] returns, it has committed everything that was
    pending if it was to commit, and nothing otherwise. *)
Theorem add_dict_return_commit u source_lang target_lang commit st st' :
  add_dict u source_lang target_lang commit st = (Return (), st') →
  committed st' = if commit then working st' else committed st.
Proof.
  destruct commit.
  - unfold add_dict, try_except, bind.
    destruct (add_dict_source _ _ st) as [[sid|e] st1]; [|done].
    destruct (add_dict_target _ _ _ st1) as [[[]|e] st2]; [|done].
    by intros [= <-].
  - intros Hrun.
    pose proof (keeps_committed_run (add_dict u source_lang target_lang false) st
                  (add_dict_deferred_keeps_committed _ _ _)) as Hk.
    by rewrite Hrun in Hk.
Qed.

(** A unit without the key [source], or whose source is [None]:
    [add_dict] raises [KeyError], or [TypeError], before any statement
    is run, and rolls back if it was to commit. *)
Theorem add_dict_without_source u source_lang target_lang commit st :
  u !! "source" = None ∨ (u !! "source" = Some None ∧ is_Some (u !! "context")) →
  add_dict u source_lang target_lang commit st
  = (Raise (match u !! "source" with None => KeyError "source" | Some _ => TypeError end),
     if commit
     then {| committed := committed st; working := committed st; clock := clock st |}
     else st).
Proof.
  intros [Hs|[Hs [c Hc]]]; unfold add_dict, add_dict_source, try_except, bind, getitem, len,
    raise, ret, connection_rollback; rewrite Hs; simpl; [|rewrite Hc; simpl];
    by destruct commit.
Qed.

(** A unit whose target is [None]: the refusal of the INSERT is
    suppressed, [add_dict] returns and the table [targets] is as
    before. *)
Theorem add_dict_target_None u source_lang target_lang commit st st' :
  u !! "target" = Some None →
  add_dict u source_lang target_lang commit st = (Return (), st') →
  targets_tbl (working st') = targets_tbl (working st).
Proof.
  intros Ht. unfold add_dict, try_except, bind.
  destruct (add_dict_source _ _ st) as [[sid|e] st1] eqn:Hsrc; [|by destruct commit].
  assert (targets_tbl (working st1) = targets_tbl (working st)) as <-.
  { revert Hsrc. unfold add_dict_source, try_except, bind, getitem, len,
      execute_insert_source, execute_select_sid, insert_source, unpack, ret, raise.
    destruct (u !! "source") as [[text|]|], (u !! "context") as [context|];
      simpl; try done.
    repeat case_decide; simpl;
      try (destruct (select_sid _ _ _ _); simpl; [|done]); by intros [= _ <-]. }
  rewrite (add_dict_target_outcome u sid _ None st1 Ht).
  destruct commit; by intros [= <-].
Qed.

(** A unit with a source, a context and a target that are strings, on
    a store that keeps its integrity: [add_dict] returns, and a second
    [add_dict] of the same unit leaves the database as the first left
    it. *)
Theorem add_dict_repeated u source_lang target_lang commit commit' text context target st :
  u !! "source" = Some (Some text) →
  u !! "context" = Some (Some context) →
  u !! "target" = Some (Some target) →
  store_ok (working st) →
  ∃ st1 st2,
    add_dict u source_lang target_lang commit st = (Return (), st1)
    ∧ add_dict u source_lang target_lang commit' st1 = (Return (), st2)
    ∧ working st2 = working st1.
Proof.
  intros Hs Hc Ht Hok.
  set (sl := normalize_code source_lang). set (tl := normalize_code target_lang).
  (* the first insert *)
  assert (∃ sid r sta,
            add_dict_source u sl st = (Return sid, sta)
            ∧ head (filter (sources_uniq_conflict text (Some context) sl)
                      (sources_tbl (working sta))) = Some r
            ∧ sources.sid r = sid) as (sid & r & sta & Hsrc & Hr & Hsid).
  { pose proof (add_dict_source_outcome_ok u sl text (Some context) st Hs Hc Hok) as Hout.
    destruct (head _) as [r|] eqn:Hhead.
    - by exists (sources.sid r), r, st.
    - destruct Hout as (sta & Hrun & _ & _ & Hrows & _).
      eexists _, _, sta. split; [done|]. rewrite Hrows, filter_app.
      apply head_None in Hhead. rewrite Hhead. simpl.
      rewrite filter_cons, decide_True; [done|].
      unfold sources_uniq_conflict. simpl. eauto. }
  pose proof (add_dict_target_outcome u sid tl (Some target) sta Ht) as Htgt.
  set (stb := {| committed := committed sta;
                 working := with_target sid (Some target) tl
                              (Some (time_time (clock sta))) (working sta);
                 clock := S (clock sta) |}) in Htgt.
  assert (Hsrcs : sources_tbl (working stb) = sources_tbl (working sta)).
  { unfold stb, with_target, insert_target. simpl. by case_decide. }
  assert (Hex : Exists (targets_uniq_conflict sid target tl) (targets_tbl (working stb))).
  { unfold stb, with_target, insert_target. simpl. case_decide as Hex; [done|]. simpl.
    apply Exists_app. right. by constructor. }
  set (st1 := if commit then exec connection_commit stb else stb).
  assert (Hw1 : working st1 = working stb) by (unfold st1; by destruct commit).
  exists st1.
  assert (Hrun1 : add_dict u source_lang target_lang commit st = (Return (), st1)).
  { unfold add_dict, try_except, bind. fold sl tl. rewrite Hsrc, Htgt.
    unfold st1. by destruct commit. }
  (* the second insert *)
  pose proof (add_dict_source_outcome u sl text (Some context) st1 Hs Hc) as Hsrc2.
  rewrite Hw1, Hsrcs, Hr, Hsid in Hsrc2.
  pose proof (add_dict_target_outcome u sid tl (Some target) st1 Ht) as Htgt2.
  assert (Hsame : with_target sid (Some target) tl (Some (time_time (clock st1)))
                    (working st1) = working st1).
  { unfold with_target, insert_target. rewrite Hw1. by rewrite decide_True. }
  rewrite Hsame in Htgt2.
  set (stc := {| committed := committed st1; working := working st1;
                 clock := S (clock st1) |}) in Htgt2.
  exists (if commit' then exec connection_commit stc else stc). split; [done|]. split.
  - unfold add_dict, try_except, bind. fold sl tl. rewrite Hsrc2, Htgt2.
    by destruct commit'.
  - by destruct commit'.
Qed.

End add_dict.

(** ** The integrity of the store *)

Lemma empty_database_ok fts3 : state_ok (connect (empty_database fts3)).
Proof.
  assert (store_ok (empty_database fts3)); [|by split].
  split; simpl.
  - by intros s ?%not_elem_of_nil.
  - constructor.
  - by intros t ?%not_elem_of_nil.
  - by intros s ?%not_elem_of_nil.
  - intros ft. by destruct fts3; intros [= <-].
Qed.

Lemma store_ok_new_source text context lang d d' :
  store_ok d →
  sources_tbl d' = sources_tbl d ++ [new_source text context lang d] →
  sources_seq d' = sources_seq d + 1 →
  targets_tbl d' = targets_tbl d →
  fulltext_tbl d'
  = (λ ft, ft ++ [fulltext_row_of (new_source text context lang d)]) <$> fulltext_tbl d →
  store_ok d'.
Proof.
  intros [Hb Hd Hr Hl Hf] Hs Hseq Ht Hft. split.
  - intros s. rewrite Hs, Hseq. intros [Hin|Hin%list_elem_of_singleton]%elem_of_app.
    + specialize (Hb s Hin). lia.
    + subst s. simpl. lia.
  - rewrite Hs, fmap_app. apply NoDup_app. split_and!; [done| |apply NoDup_singleton].
    intros sid (s & -> & Hin)%list_elem_of_fmap. simpl.
    intros Heq%list_elem_of_singleton. specialize (Hb s Hin). lia.
  - intros t. rewrite Ht, Hs. intros (s & ? & ?)%Hr. exists s. split; [|done].
    apply elem_of_app. by left.
  - intros s. rewrite Hs. intros [Hin|Hin%list_elem_of_singleton]%elem_of_app.
    + by apply Hl.
    + by subst s.
  - intros ft. rewrite Hft, Hs, fmap_app.
    destruct (fulltext_tbl d) as [ft0|]; [|done]. intros [= <-]. by rewrite (Hf ft0).
Qed.

Lemma store_ok_with_target sid text lang time d :
  store_ok d → (∃ s, s ∈ sources_tbl d ∧ sources.sid s = sid) →
  store_ok (with_target sid text lang time d).
Proof.
  intros Hok Hsid. unfold with_target, insert_target.
  destruct text as [text|]; [|done]. case_decide; [done|].
  destruct Hok as [Hb Hd Hr Hl Hf]. split; simpl; try done.
  intros t [Hin|Hin%list_elem_of_singleton]%elem_of_app; [by apply Hr|by subst t].
Qed.

Section store_ok.
Context `{env : Environment}.

Lemma add_dict_source_ok u lang st res st' :
  state_ok st → add_dict_source u lang st = (res, st') →
  state_ok st'
  ∧ ∀ sid, res = Return sid → ∃ s, s ∈ sources_tbl (working st') ∧ sources.sid s = sid.
Proof.
  intros [Hc Hw].
  destruct (u !! "source") as [[text|]|] eqn:Hs;
    [destruct (u !! "context") as [context|] eqn:Hctx|..].
  - pose proof (add_dict_source_outcome_ok u lang text context st Hs Hctx Hw) as Hout.
    destruct (head _) as [r|] eqn:Hhead.
    + rewrite Hout. intros [= <- <-]. split; [done|]. intros sid [= <-]. exists r.
      split; [|done]. apply head_Some_elem_of in Hhead.
      by apply list_elem_of_filter in Hhead as [_ ?].
    + destruct Hout as (st1 & -> & Hcom & _ & Hrows & Hseq & Ht & _ & Hft).
      intros [= <- <-]. split.
      * split; [by rewrite Hcom|]. by eapply store_ok_new_source.
      * intros sid [= <-]. eexists. split; [rewrite Hrows; apply elem_of_app; right; left|].
        done.
  - unfold add_dict_source, try_except, bind, getitem, raise. rewrite Hs, Hctx. simpl.
    by intros [= <- <-].
  - unfold add_dict_source, try_except, bind, getitem, len, raise, ret. rewrite Hs. simpl.
    destruct (u !! "context"); simpl; by intros [= <- <-].
  - unfold add_dict_source, try_except, bind, getitem, raise. rewrite Hs. simpl.
    by intros [= <- <-].
Qed.

Lemma add_dict_target_ok u sid lang st res st' :
  state_ok st → (∃ s, s ∈ sources_tbl (working st) ∧ sources.sid s = sid) →
  add_dict_target u sid lang st = (res, st') → state_ok st'.
Proof.
  intros [Hc Hw] Hsid. destruct (u !! "target") as [target|] eqn:Ht.
  - rewrite (add_dict_target_outcome u sid lang target st Ht). intros [= _ <-].
    split; [done|]. by apply store_ok_with_target.
  - unfold add_dict_target, suppress_IntegrityError, try_except, bind, getitem, raise.
    rewrite Ht. simpl. by intros [= _ <-].
Qed.

Lemma add_dict_ok u source_lang target_lang commit :
  preserves state_ok (add_dict u source_lang target_lang commit).
Proof.
  intros st Hok. unfold add_dict, try_except, bind.
  destruct (add_dict_source _ _ st) as [res1 st1] eqn:Hsrc.
  destruct (add_dict_source_ok _ _ _ _ _ Hok Hsrc) as [Hok1 Hsid].
  destruct res1 as [sid|e]; [|destruct commit; simpl; [by destruct Hok1|done]].
  destruct (add_dict_target _ _ _ st1) as [res2 st2] eqn:Htgt.
  pose proof (add_dict_target_ok _ _ _ _ _ _ Hok1 (Hsid sid eq_refl) Htgt) as Hok2.
  destruct res2 as [[]|e], commit; simpl; try done; by destruct Hok2.
Qed.

Lemma add_unit_ok u source_lang target_lang commit :
  preserves state_ok (add_unit u source_lang target_lang commit).
Proof.
  unfold add_unit. repeat case_match; first [apply preserves_raise|apply add_dict_ok].
Qed.

Lemma connection_commit_ok : preserves state_ok connection_commit.
Proof. by intros st [Hc Hw]. Qed.

Lemma add_list_ok units source_lang target_lang commit :
  preserves state_ok (add_list units source_lang target_lang commit).
Proof.
  unfold add_list. apply preserves_bind.
  - generalize 0. induction units as [|u units IH]; intros count; simpl.
    + apply preserves_ret.
    + apply preserves_bind; [apply add_dict_ok|intros _; apply IH].
  - intros count. apply preserves_bind; [|intros _; apply preserves_ret].
    destruct commit; [apply connection_commit_ok|apply preserves_ret].
Qed.

Lemma add_store_ok units source_lang target_lang commit :
  preserves state_ok (add_store units source_lang target_lang commit).
Proof.
  unfold add_store. apply preserves_bind.
  - generalize 0. induction units as [|u units IH]; intros count; simpl.
    + apply preserves_ret.
    + case_match; [|apply IH].
      apply preserves_bind; [apply add_unit_ok|intros _; apply IH].
  - intros count. apply preserves_bind; [|intros _; apply preserves_ret].
    destruct commit; [apply connection_commit_ok|apply preserves_ret].
Qed.

(** The four insertion methods keep the integrity of the store: distinct
    sids, targets that refer to a source, the cached length, and a
    [fulltext] table that mirrors [sources]. *)
Theorem insertion_keeps_integrity st :
  state_ok st →
  (∀ u source_lang target_lang commit,
     state_ok (exec (add_dict u source_lang target_lang commit) st))
  ∧ (∀ u source_lang target_lang commit,
     state_ok (exec (add_unit u source_lang target_lang commit) st))
  ∧ (∀ units source_lang target_lang commit,
     state_ok (exec (add_list units source_lang target_lang commit) st))
  ∧ (∀ units source_lang target_lang commit,
     state_ok (exec (add_store units source_lang target_lang commit) st)).
Proof.
  intros Hok. split_and!; intros.
  - by apply add_dict_ok.
  - by apply add_unit_ok.
  - by apply add_list_ok.
  - by apply add_store_ok.
Qed.

(** The four insertion methods keep the unique indices. *)
Theorem insertion_keeps_unique st :
  state_unique st →
  (∀ u source_lang target_lang commit,
     state_unique (exec (add_dict u source_lang target_lang commit) st))
  ∧ (∀ u source_lang target_lang commit,
     state_unique (exec (add_unit u source_lang target_lang commit) st))
  ∧ (∀ units source_lang target_lang commit,
     state_unique (exec (add_list units source_lang target_lang commit) st))
  ∧ (∀ units source_lang target_lang commit,
     state_unique (exec (add_store units source_lang target_lang commit) st)).
Proof.
  intros Hok. split_and!; intros.
  - by apply add_dict_unique.
  - by apply add_unit_unique.
  - by apply add_list_unique.
  - by apply add_store_unique.
Qed.

End store_ok.

(** ** Counting the rows: [preload_db] *)

Lemma length_filter_or {A} (P Q : A → Prop) `{!∀ x, Decision (P x)} `{!∀ x, Decision (Q x)}
    (l : list A) :
  (∀ x, P x → Q x → False) →
  List.length (filter (λ x, P x ∨ Q x) l)
  = (List.length (filter P l) + List.length (filter Q l))%nat.
Proof.
  intros Hdisj. induction l as [|x l IH]; [done|].
  rewrite !filter_cons.
  destruct (decide (P x)) as [HP|HP], (decide (Q x)) as [HQ|HQ].
  - destruct (Hdisj x HP HQ).
  - rewrite decide_True by auto. simpl. lia.
  - rewrite decide_True by auto. simpl. lia.
  - rewrite decide_False by tauto. done.
Qed.

Lemma preload_rows_targets_of (s : sources.row) (T : list targets.row) :
  List.length (t ← T; if decide (sources.sid s = targets.sid t) then [(s, t)] else [])
  = List.length (filter (λ t, sources.sid s = targets.sid t) T).
Proof.
  induction T as [|t T IH]; [done|].
  rewrite bind_cons, length_app, IH, filter_cons. by case_decide.
Qed.

Lemma preload_rows_length_gen (S : list sources.row) (T : list targets.row) :
  NoDup (sources.sid <$> S) →
  List.length (s ← S; t ← T;
               if decide (sources.sid s = targets.sid t) then [(s, t)] else [])
  = List.length (filter (λ t, targets.sid t ∈ sources.sid <$> S) T).
Proof.
  induction S as [|s S IH]; intros Hnd.
  - simpl. symmetry. apply length_zero_iff_nil, (filter_nil_not_Exists _ _).
    intros (t & _ & Hin)%Exists_exists. by apply not_elem_of_nil in Hin.
  - rewrite fmap_cons in Hnd. apply NoDup_cons in Hnd as [Hnew Hnd].
    rewrite bind_cons, length_app, preload_rows_targets_of, IH by done.
    rewrite <- (length_filter_or (λ t, sources.sid s = targets.sid t)
                  (λ t, targets.sid t ∈ sources.sid <$> S)).
    + f_equal. apply list_filter_iff. intros t. rewrite fmap_cons, elem_of_cons.
      split; (intros [Heq|Hin]; [by left|by right]).
    + intros t <- Hin. done.
Qed.

Lemma filter_all {A} (P : A → Prop) `{!∀ x, Decision (P x)} (l : list A) :
  (∀ x, x ∈ l → P x) → filter P l = l.
Proof.
  induction l as [|x l IH]; intros Hall; [done|].
  rewrite filter_cons, decide_True by (apply Hall; left).
  f_equal. apply IH. intros y Hy. apply Hall. by right.
Qed.

Lemma preload_rows_length d :
  store_ok d → List.length (preload_rows d) = List.length (targets_tbl d).
Proof.
  intros [_ Hd Hr _ _]. unfold preload_rows. rewrite preload_rows_length_gen by done.
  f_equal. apply filter_all. intros t (s & Hs & <-)%Hr.
  apply list_elem_of_fmap. eauto.
Qed.

Lemma preload_rows_fulltext_of_one (s : sources.row) (f : fulltext.row)
    (T : list targets.row) :
  List.length (t ← T;
               if decide (sources.sid s = fulltext.docid f ∧ sources.sid s = targets.sid t)
               then [(s, f, t)] else [])
  = if decide (sources.sid s = fulltext.docid f)
    then List.length (filter (λ t, sources.sid s = targets.sid t) T) else 0%nat.
Proof.
  induction T as [|t T IHT]; [by case_decide|].
  rewrite bind_cons, length_app, IHT, filter_cons.
  destruct (decide (sources.sid s = fulltext.docid f)),
    (decide (sources.sid s = targets.sid t));
    [rewrite decide_True by done|rewrite decide_False by tauto..]; simpl; lia.
Qed.

Lemma preload_rows_fulltext_of (s : sources.row) (F : list fulltext.row)
    (T : list targets.row) :
  List.length (f ← F; t ← T;
               if decide (sources.sid s = fulltext.docid f ∧ sources.sid s = targets.sid t)
               then [(s, f, t)] else [])
  = (List.length (filter (λ f, sources.sid s = fulltext.docid f) F)
     * List.length (filter (λ t, sources.sid s = targets.sid t) T))%nat.
Proof.
  induction F as [|f F IH]; [done|].
  rewrite bind_cons, length_app, IH, filter_cons, preload_rows_fulltext_of_one.
  case_decide; simpl; lia.
Qed.

Lemma fulltext_rows_of_sid (S : list sources.row) (s : sources.row) :
  NoDup (sources.sid <$> S) → s ∈ S →
  List.length (filter (λ f, sources.sid s = fulltext.docid f) (fulltext_row_of <$> S))
  = 1%nat.
Proof.
  induction S as [|s0 S IH]; intros Hnd Hin; [by apply not_elem_of_nil in Hin|].
  rewrite fmap_cons in Hnd. apply NoDup_cons in Hnd as [Hnew Hnd].
  rewrite fmap_cons, filter_cons. simpl.
  apply elem_of_cons in Hin as [->|Hin].
  - rewrite decide_True by done. simpl. f_equal.
    apply length_zero_iff_nil, (filter_nil_not_Exists _ _).
    intros (f & (s & -> & Hs)%list_elem_of_fmap & Heq)%Exists_exists. simpl in Heq.
    apply Hnew. rewrite Heq. apply list_elem_of_fmap. eauto.
  - rewrite decide_False; [by apply IH|].
    intros Heq. apply Hnew. rewrite <- Heq. apply list_elem_of_fmap. eauto.
Qed.

Lemma preload_rows_fulltext_length_gen (S' S : list sources.row) (T : list targets.row) :
  NoDup (sources.sid <$> S) → (∀ s, s ∈ S' → s ∈ S) →
  List.length (s ← S'; f ← fulltext_row_of <$> S; t ← T;
               if decide (sources.sid s = fulltext.docid f ∧ sources.sid s = targets.sid t)
               then [(s, f, t)] else [])
  = List.length (s ← S'; t ← T;
                 if decide (sources.sid s = targets.sid t) then [(s, t)] else []).
Proof.
  intros Hnd. induction S' as [|s S' IH]; intros Hsub; [done|].
  rewrite !bind_cons, !length_app, IH by (intros ??; apply Hsub; by right).
  rewrite preload_rows_fulltext_of, preload_rows_targets_of.
  rewrite fulltext_rows_of_sid; [lia|done|]. apply Hsub. left.
Qed.

Lemma preload_rows_fulltext_length d ft :
  store_ok d → fulltext_tbl d = Some ft →
  List.length (preload_rows_fulltext ft d) = List.length (preload_rows d).
Proof.
  intros [_ Hd _ _ Hf] ->%Hf. by apply preload_rows_fulltext_length_gen.
Qed.

(** On a store with its integrity, [preload_db] returns the number of
    rows of [targets], with and without full text, and leaves the
    connection as it is. *)
Theorem preload_db_counts_targets self st :
  store_ok (working st) →
  (fulltext self = true → is_Some (fulltext_tbl (working st))) →
  preload_db self st = (Return (Z.of_nat (List.length (targets_tbl (working st)))), st).
Proof.
  intros Hok Hft. unfold preload_db. destruct (fulltext self).
  - destruct (Hft eq_refl) as [ft Hsome]. rewrite Hsome.
    by rewrite (preload_rows_fulltext_length _ _ Hok Hsome), preload_rows_length.
  - by rewrite preload_rows_length.
Qed.

(** ** [init_fulltext] *)

Lemma backfill_fulltext_covered ft srcs :
  (∀ s, s ∈ srcs → sources.sid s ∈ fulltext.docid <$> ft) →
  backfill_fulltext ft srcs = ft.
Proof.
  intros Hcov. unfold backfill_fulltext.
  assert (filter (λ s, sources.sid s ∉ fulltext.docid <$> ft) srcs = []) as ->.
  { apply (filter_nil_not_Exists _ _). intros (s & Hs & Hnot)%Exists_exists.
    by apply Hnot, Hcov. }
  by rewrite app_nil_r.
Qed.

Lemma backfill_fulltext_covers ft srcs s :
  s ∈ srcs → sources.sid s ∈ fulltext.docid <$> backfill_fulltext ft srcs.
Proof.
  intros Hs. unfold backfill_fulltext. rewrite fmap_app, elem_of_app.
  destruct (decide (sources.sid s ∈ fulltext.docid <$> ft)) as [|Hnot]; [by left|].
  right. rewrite <- list_fmap_compose. apply list_elem_of_fmap. exists s. split; [done|].
  by apply list_elem_of_filter.
Qed.

(** [init_fulltext] on an engine with fts3, on a store with its
    integrity: it returns [True], leaves a [fulltext] table that
    mirrors [sources], commits, and keeps the rows of [sources] and
    [targets]. *)
Theorem init_fulltext_mirrors st :
  store_ok (working st) →
  ∃ st', init_fulltext true st = (Return true, st')
    ∧ fulltext_tbl (working st') = Some (fulltext_row_of <$> sources_tbl (working st))
    ∧ sources_tbl (working st') = sources_tbl (working st)
    ∧ targets_tbl (working st') = targets_tbl (working st)
    ∧ committed st' = working st'
    ∧ state_ok st'.
Proof.
  intros Hok. eexists. split; [done|]. simpl.
  assert (backfill_fulltext (default [] (fulltext_tbl (working st)))
            (sources_tbl (working st))
          = fulltext_row_of <$> sources_tbl (working st)) as Hfill.
  { destruct (fulltext_tbl (working st)) as [ft|] eqn:Hft; simpl.
    - pose proof (fulltext_mirrors _ Hok ft Hft) as ->. apply backfill_fulltext_covered.
      intros s Hs. rewrite <- list_fmap_compose. apply list_elem_of_fmap. eauto.
    - unfold backfill_fulltext. simpl. f_equal. apply filter_all.
      intros s _. apply not_elem_of_nil. }
  rewrite Hfill. split_and!; try done.
  assert (store_ok
            {| sources_tbl := sources_tbl (working st);
               sources_seq := sources_seq (working st);
               targets_tbl := targets_tbl (working st);
               targets_seq := targets_seq (working st);
               fulltext_tbl := Some (fulltext_row_of <$> sources_tbl (working st)) |});
    [|by split].
  destruct Hok as [Hb Hd Hr Hl Hf]. split; simpl; try done. by intros ft [= <-].
Qed.

(** [init_fulltext] a second time finds nothing to add. *)
Theorem init_fulltext_idempotent fts3 st :
  init_fulltext fts3 (exec (init_fulltext fts3) st)
  = (Return fts3, exec (init_fulltext fts3) st).
Proof.
  unfold init_fulltext, exec. destruct fts3; simpl; [|done].
  rewrite backfill_fulltext_covered; [done|].
  intros s Hs. by apply backfill_fulltext_covers.
Qed.

(** ** The window of lengths *)

Lemma min_max_levenshtein_range (length : Z) (s : Q) (cap : Z) :
  2 ≤ min_levenshtein_length length s
  ∧ ∀ maxlen, max_levenshtein_length length s cap = Return maxlen → maxlen ≤ cap.
Proof.
  split.
  - unfold min_levenshtein_length. rewrite Zle_Qle.
    eapply Qle_trans; [|apply Qle_ceiling].
    destruct (py_max_cases (inject_Z length * (s / 100)) 2) as [[-> ?]|[-> ?]];
      [done|apply Qle_refl].
  - intros maxlen. unfold max_levenshtein_length. destruct (Qeq_bool _ _); [done|].
    intros [= <-]. rewrite <- (Qfloor_Z cap) at 2. apply Qfloor_resp_le.
    unfold py_min. destruct (Qle_bool _ _) eqn:Hle; [by apply Qle_bool_iff|apply Qle_refl].
Qed.

(** The lower bound is never below 2 and the upper bound never above
    [max_length]. *)
Theorem levenshtein_bounds_range (length : Z) (s : Q) (cap : Z) :
  2 ≤ min_levenshtein_length length s
  ∧ ∀ maxlen, max_levenshtein_length length s cap = Return maxlen → maxlen ≤ cap.
Proof. apply min_max_levenshtein_range. Qed.


Section lookup.
Context `{env : Environment}.

(** Where a suggestion comes from. *)
Lemma translate_unit_provenance self unit_source source_langs target_langs st results st' r :
  translate_unit self unit_source source_langs target_langs st = (Return results, st') →
  r ∈ results →
  ∃ maxlen s t,
    max_levenshtein_length (Z.of_nat (String.length unit_source))
      (min_similarity self) (max_length self) = Return maxlen
    ∧ s ∈ sources_tbl (working st) ∧ t ∈ targets_tbl (working st)
    ∧ candidate_where (langs_param source_langs) (langs_param target_langs)
        (min_levenshtein_length (Z.of_nat (String.length unit_source)) (min_similarity self))
        maxlen s t
    ∧ score self unit_source (candidate_of s t) = Some r.
Proof.
  intros (maxlen & rows & Hmax & Hq & ->)%translate_unit_Return Hr.
  assert (r ∈ omap (score self unit_source) rows) as (row & Hrow & Hscore)%list_elem_of_omap.
  { rewrite <- (sort_reverse_perm (omap _ rows)).
    destruct (slice_to_prefix (sort_reverse (omap (score self unit_source) rows))
                (max_candidates self)) as [k Hk].
    rewrite Hk. set_solver. }
  exists maxlen.
  destruct (execute_candidates_where _ _ _ _ _ _ _ _ _ _ Hq Hrow) as (s & t & ? & ? & -> & ?).
  eauto 10.
Qed.

(** On a store with its integrity, the source text of every suggestion
    has between 2 and [max_length] characters. *)
Theorem translate_unit_source_length self unit_source source_langs target_langs
    st results st' r :
  store_ok (working st) →
  translate_unit self unit_source source_langs target_langs st = (Return results, st') →
  r ∈ results →
  2 ≤ Z.of_nat (String.length (suggestion.source r)) ≤ max_length self.
Proof.
  intros Hok Hrun Hr.
  destruct (translate_unit_provenance _ _ _ _ _ _ _ _ Hrun Hr)
    as (maxlen & s & t & Hmax & Hs & Ht & (_ & _ & _ & Hlo & Hhi) & Hscore).
  assert (suggestion.source r = sources.text s) as ->.
  { revert Hscore. unfold score, candidate_of. destruct (Qle_bool _ _); [|done].
    by intros [= <-]. }
  rewrite <- (length_cached _ Hok s Hs).
  destruct (min_max_levenshtein_range (Z.of_nat (String.length unit_source))
              (min_similarity self) (max_length self)) as [Hmin Hcap].
  specialize (Hcap maxlen Hmax). lia.
Qed.




Lemma add_dict_leaves_pair u source_lang target_lang commit text context target st :
  u !! "source" = Some (Some text) →
  u !! "context" = Some context →
  u !! "target" = Some (Some target) →
  store_ok (working st) →
  ∃ st' s t,
    add_dict u source_lang target_lang commit st = (Return (), st')
    ∧ s ∈ sources_tbl (working st') ∧ t ∈ targets_tbl (working st')
    ∧ sources.sid s = targets.sid t
    ∧ sources.text s = text ∧ sources.context s = context
    ∧ sources.lang s = normalize_code source_lang
    ∧ sources.length s = Z.of_nat (String.length text)
    ∧ targets.text t = target ∧ targets.lang t = normalize_code target_lang.
Proof.
  intros Hs Hc Ht Hok.
  set (sl := normalize_code source_lang). set (tl := normalize_code target_lang).
  assert (∃ sta s,
            add_dict_source u sl st = (Return (sources.sid s), sta)
            ∧ s ∈ sources_tbl (working sta)
            ∧ sources.text s = text ∧ sources.context s = context ∧ sources.lang s = sl
            ∧ sources.length s = Z.of_nat (String.length text))
    as (sta & s & Hsrc & Hin & Htext & Hctx & Hlang & Hlen).
  { pose proof (add_dict_source_outcome_ok u sl text context st Hs Hc Hok) as Hout.
    destruct (head _) as [r|] eqn:Hhead.
    - apply head_Some_elem_of, list_elem_of_filter in Hhead as [(? & ? & ? & ?) Hr].
      exists st, r. split_and!; try done.
      rewrite (length_cached _ Hok r Hr). congruence.
    - destruct Hout as (sta & Hrun & _ & _ & Hrows & _).
      exists sta, (new_source text context sl (working st)). split_and!; try done.
      rewrite Hrows. apply elem_of_app. right. left. }
  pose proof (add_dict_target_outcome u (sources.sid s) tl (Some target) sta Ht) as Htgt.
  set (stb := {| committed := committed sta;
                 working := with_target (sources.sid s) (Some target) tl
                              (Some (time_time (clock sta))) (working sta);
                 clock := S (clock sta) |}) in Htgt.
  assert (Hin' : s ∈ sources_tbl (working stb)).
  { unfold stb, with_target, insert_target. simpl. by case_decide. }
  assert (∃ t, t ∈ targets_tbl (working stb)
               ∧ targets_uniq_conflict (sources.sid s) target tl t) as (t & Hint & Hkey).
  { unfold stb, with_target, insert_target. simpl. case_decide as Hex; simpl.
    - apply Exists_exists in Hex as (t & ? & ?). eauto.
    - eexists. split; [apply elem_of_app; right; left|]. done. }
  destruct Hkey as (Hsid & Htt & Htl).
  exists (if commit then exec connection_commit stb else stb), s, t. split_and!; try done.
  - unfold add_dict, try_except, bind. fold sl tl. rewrite Hsrc, Htgt. by destruct commit.
  - by destruct commit.
  - by destruct commit.
Qed.

(** After [add_dict] of a unit with a source and a target, the store
    holds a source row with the text of the unit, under the normalized
    source language and with the cached length, and a target row of it
    with the text of the target under the normalized target language. *)
Theorem add_dict_stores_pair u source_lang target_lang commit text context target st :
  u !! "source" = Some (Some text) →
  u !! "context" = Some context →
  u !! "target" = Some (Some target) →
  store_ok (working st) →
  ∃ st' s t,
    add_dict u source_lang target_lang commit st = (Return (), st')
    ∧ s ∈ sources_tbl (working st') ∧ t ∈ targets_tbl (working st')
    ∧ sources.sid s = targets.sid t
    ∧ sources.text s = text ∧ sources.context s = context
    ∧ sources.lang s = normalize_code source_lang
    ∧ sources.length s = Z.of_nat (String.length text)
    ∧ targets.text t = target ∧ targets.lang t = normalize_code target_lang.
Proof. apply add_dict_leaves_pair. Qed.


End lookup.

(** ** More on the batches *)

Section batches.
Context `{env : Environment}.








Lemma add_list_loop_shift units source_lang target_lang count st :
  add_list_loop units source_lang target_lang count st
  = match add_list_loop units source_lang target_lang 0 st with
    | (Return n, st') => (Return (count + n), st')
    | (Raise e, st') => (Raise e, st')
    end.
Proof.
  revert count st. induction units as [|u units IH]; intros count st; simpl.
  - unfold ret. do 2 f_equal. lia.
  - unfold bind. destruct (add_dict _ _ _ _ st) as [[[]|e] st1]; [|done].
    rewrite (IH (count + 1)), (IH (0 + 1)).
    destruct (add_list_loop _ _ _ 0 st1) as [[n|e] st2]; [|done].
    do 2 f_equal. lia.
Qed.

Lemma add_list_loop_count units source_lang target_lang count st n st' :
  add_list_loop units source_lang target_lang count st = (Return n, st') →
  n = count + Z.of_nat (List.length units).
Proof.
  revert count st. induction units as [|u units IH]; intros count st; simpl.
  - intros [= <- _]. lia.
  - unfold bind. destruct (add_dict _ _ _ _ st) as [[[]|e] st1]; [|done].
    intros ->%IH. lia.
Qed.

(** When [add_list] returns, the count is the number of dictionaries of
    the list, duplicates included, and the transaction is committed if
    and only if that was asked. *)
Theorem add_list_return units source_lang target_lang commit st count st' :
  add_list units source_lang target_lang commit st = (Return count, st') →
  count = Z.of_nat (List.length units)
  ∧ committed st' = if commit then working st' else committed st.
Proof.
  unfold add_list, bind.
  pose proof (keeps_committed_run (add_list_loop units source_lang target_lang 0) st
                (add_list_loop_keeps_committed _ _ _ _)) as Hk.
  destruct (add_list_loop _ _ _ _ st) as [[n|e] st1] eqn:Hloop; [|done].
  apply add_list_loop_count in Hloop as ->. simpl in Hk.
  destruct commit; simpl; intros [= <- <-]; split; done || lia.
Qed.

Lemma add_list_loop_app units1 units2 source_lang target_lang count st :
  add_list_loop (units1 ++ units2) source_lang target_lang count st
  = match add_list_loop units1 source_lang target_lang count st with
    | (Return n, st') => add_list_loop units2 source_lang target_lang n st'
    | (Raise e, st') => (Raise e, st')
    end.
Proof.
  revert count st. induction units1 as [|u units1 IH]; intros count st; simpl; [done|].
  unfold bind. destruct (add_dict _ _ _ _ st) as [[[]|e] st1]; [|done].
  apply IH.
Qed.

(** A list in two parts: [add_list] of the whole is [add_list] of the
    first part with the commit deferred, then [add_list] of the second
    part, the counts added. *)
Theorem add_list_app units1 units2 source_lang target_lang commit st :
  add_list (units1 ++ units2) source_lang target_lang commit st
  = (n1 <- add_list units1 source_lang target_lang false;;
     n2 <- add_list units2 source_lang target_lang commit;;
     ret (n1 + n2)) st.
Proof.
  unfold add_list, bind. rewrite add_list_loop_app.
  destruct (add_list_loop units1 _ _ 0 st) as [[n1|e] st1]; [|done].
  simpl. rewrite add_list_loop_shift.
  destruct (add_list_loop units2 _ _ 0 st1) as [[n2|e] st2]; [|done].
  by destruct commit.
Qed.

(** The languages of the unit win over those of the caller: with a
    unit that names both its languages, the language arguments of
    [add_unit] have no effect. *)
Theorem add_unit_own_languages u source_lang target_lang source_lang' target_lang'
    commit st :
  is_Some (truthy (TranslationUnit.getsourcelanguage u)) →
  is_Some (truthy (TranslationUnit.gettargetlanguage u)) →
  add_unit u source_lang target_lang commit st
  = add_unit u source_lang' target_lang' commit st.
Proof.
  intros [a Ha] [b Hb]. unfold add_unit. by rewrite Ha, Hb.
Qed.

End batches.

(** ** The words of a query *)

Lemma STRIP_REGEXP_sub_chars s c :
  c ∈ list_ascii_of_string (STRIP_REGEXP_sub s) → is_space c = false →
  is_word_char c = true.
Proof.
  induction s as [|c0 s IH]; simpl; [by intros ?%not_elem_of_nil|].
  intros [->|Hin]%elem_of_cons Hsp; [|by apply IH].
  destruct (is_word_char c0) eqn:Hw; [done|]. by vm_compute in Hsp.
Qed.

Lemma split_from_chars (P : ascii → Prop) word s w :
  Forall P word →
  (∀ c, c ∈ list_ascii_of_string s → is_space c = false → P c) →
  w ∈ split_from word s → Forall P (list_ascii_of_string w).
Proof.
  revert word. induction s as [|c s IH]; intros word Hword Hs; simpl.
  - destruct word as [|c0 word]; [by intros ?%not_elem_of_nil|].
    intros ->%list_elem_of_singleton. rewrite list_ascii_of_string_of_list_ascii.
    by apply Forall_rev.
  - assert (Hs' : ∀ c', c' ∈ list_ascii_of_string s → is_space c' = false → P c').
    { intros c' Hc'. apply Hs. simpl. by right. }
    destruct (is_space c) eqn:Hsp.
    + destruct word as [|c0 word]; [by apply IH|].
      intros [->|Hin]%elem_of_cons; [|exact (IH [] (Forall_nil_2 _) Hs' Hin)].
      rewrite list_ascii_of_string_of_list_ascii. by apply Forall_rev.
    + apply IH; [|done]. constructor; [|done]. apply Hs; [simpl; left|done].
Qed.

(** Every word that [translate_unit] keeps of the query has at least 3
    characters, all of them word characters. *)
Theorem unit_words_spec unit_source word :
  word ∈ unit_words unit_source →
  (3 ≤ String.length word)%nat
  ∧ Forall (λ c, is_word_char c = true) (list_ascii_of_string word).
Proof.
  unfold unit_words. rewrite list_elem_of_In, filter_In, <- list_elem_of_In.
  intros [Hin Hlen]. split.
  - apply Nat.ltb_lt in Hlen. lia.
  - eapply (split_from_chars _ [] _ _ (Forall_nil_2 _)); [|exact Hin].
    apply STRIP_REGEXP_sub_chars.
Qed.

(** ** The connections of the threads *)

Lemma register_holds db_file reg f t c :
  holds (register db_file reg) f t c ↔ holds reg f t c.
Proof.
  unfold register. destruct (_tm_dbs reg !! db_file) as [per|] eqn:Hf; [done|].
  unfold holds. simpl. split; intros (per & Hper & Hc).
  - destruct (decide (db_file = f)) as [->|Hne].
    + rewrite lookup_insert_eq in Hper. injection Hper as <-. by rewrite lookup_empty in Hc.
    + rewrite lookup_insert_ne in Hper by done. eauto.
  - exists per. split; [|done]. rewrite lookup_insert_ne; [done|]. intros ->. congruence.
Qed.

Lemma register_registered db_file reg :
  is_Some (_tm_dbs (register db_file reg) !! db_file).
Proof.
  unfold register. destruct (_tm_dbs reg !! db_file) as [per|] eqn:Hf; [by rewrite Hf|].
  simpl. by rewrite lookup_insert_eq.
Qed.

(** [_get_connection] when the thread has its pair. *)
Lemma get_connection_held db_file thread index reg c :
  holds reg db_file thread c →
  _get_connection db_file thread index reg = (if index then Cursor c else Connection c, reg).
Proof.
  intros (per & Hper & Hc). unfold _get_connection. rewrite Hper. simpl. by rewrite Hc.
Qed.

(** [_get_connection] when the thread has no pair yet. *)
Lemma get_connection_new db_file thread index reg :
  (∀ c, ¬ holds reg db_file thread c) →
  let c := {| pair_db_file := db_file; pair_rank := opened reg |} in
  ∃ reg', _get_connection db_file thread index reg
          = (if index then Cursor c else Connection c, reg')
    ∧ opened reg' = S (opened reg)
    ∧ ∀ f t c', holds reg' f t c' ↔ (f = db_file ∧ t = thread ∧ c' = c) ∨ holds reg f t c'.
Proof.
  intros Hnew c. unfold _get_connection.
  set (per := default ∅ (_tm_dbs reg !! db_file)).
  assert (Hper : per !! thread = None).
  { destruct (per !! thread) as [c0|] eqn:Hc0; [|done]. destruct (Hnew c0).
    unfold per in Hc0. destruct (_tm_dbs reg !! db_file) as [per0|] eqn:Hf; simpl in Hc0.
    - by exists per0.
    - by rewrite lookup_empty in Hc0. }
  rewrite Hper. eexists. split; [done|]. split; [done|].
  intros f t c'. unfold holds. simpl. split.
  - intros (per' & Hper' & Hc').
    destruct (decide (db_file = f)) as [<-|Hne].
    + rewrite lookup_insert_eq in Hper'. injection Hper' as <-.
      destruct (decide (thread = t)) as [<-|Hnt].
      * rewrite lookup_insert_eq in Hc'. injection Hc' as <-. by left.
      * rewrite lookup_insert_ne in Hc' by done. right.
        unfold per in Hc'. destruct (_tm_dbs reg !! db_file) as [per0|]; simpl in Hc'.
        -- by exists per0.
        -- by rewrite lookup_empty in Hc'.
    + rewrite lookup_insert_ne in Hper' by done. right. eauto.
  - intros [(-> & -> & ->)|(per' & Hper' & Hc')].
    + eexists. rewrite lookup_insert_eq. split; [done|]. by rewrite lookup_insert_eq.
    + destruct (decide (db_file = f)) as [<-|Hne].
      * eexists. rewrite lookup_insert_eq. split; [done|].
        assert (thread ≠ t) by (intros ->; eapply Hnew; by exists per').
        rewrite lookup_insert_ne by done. unfold per. by rewrite Hper'.
      * exists per'. by rewrite lookup_insert_ne.
Qed.

Lemma holds_dec_cases reg db_file thread :
  (∃ c, holds reg db_file thread c) ∨ (∀ c, ¬ holds reg db_file thread c).
Proof.
  unfold holds. destruct (_tm_dbs reg !! db_file) as [per|] eqn:Hf.
  - destruct (per !! thread) as [c|] eqn:Hc.
    + left. exists c, per. done.
    + right. intros c (per' & [= <-] & ?). congruence.
  - right. by intros c (per' & ? & _).
Qed.

(** What [_get_connection] does to the registry. *)
Lemma get_connection_spec db_file thread index reg :
  ∃ c reg',
    _get_connection db_file thread index reg
    = (if index then Cursor c else Connection c, reg')
    ∧ holds reg' db_file thread c
    ∧ (∀ f t c', holds reg f t c' → holds reg' f t c')
    ∧ (registry_ok reg → registry_ok reg').
Proof.
  destruct (holds_dec_cases reg db_file thread) as [[c Hc]|Hnew].
  - exists c, reg. by rewrite (get_connection_held _ _ _ _ _ Hc).
  - destruct (get_connection_new db_file thread index reg Hnew) as (reg' & Hrun & Hop & Hh).
    eexists _, reg'. split; [exact Hrun|]. split_and!.
    + apply Hh. by left.
    + intros f t c' ?. apply Hh. by right.
    + intros [Hfile Hrank]. split.
      * intros f t c' [(-> & -> & ->)|Hold]%Hh; simpl; [rewrite Hop; split; [done|lia]|].
        destruct (Hfile f t c' Hold). rewrite Hop. split; [done|lia].
      * intros f1 t1 c1 f2 t2 c2 [(-> & -> & ->)|H1]%Hh [(-> & -> & ->)|H2]%Hh Heq;
          simpl in *; [done| | |by eapply Hrank].
        -- destruct (Hfile _ _ _ H2). lia.
        -- destruct (Hfile _ _ _ H1). lia.
Qed.

(** The pair of a thread is made once: after an instance for a file
    has given a thread its connection or its cursor, any instance for
    that file gives the same thread an element of the same pair, and
    opens no connection. *)
Theorem get_connection_reuses db_file thread index index' reg :
  ∃ c reg',
    _get_connection db_file thread index (register db_file reg)
    = (if index then Cursor c else Connection c, reg')
    ∧ _get_connection db_file thread index' (register db_file reg')
      = (if index' then Cursor c else Connection c, reg').
Proof.
  destruct (get_connection_spec db_file thread index (register db_file reg))
    as (c & reg' & Hrun & Hc & _).
  exists c, reg'. split; [done|].
  assert (register db_file reg' = reg') as ->.
  { unfold register. destruct Hc as (per & -> & _). done. }
  by apply get_connection_held.
Qed.

(** No connection is shared: in a registry as the methods make it, two
    calls that give elements of the same pair are calls of the same
    thread for the same file. *)
Theorem get_connection_isolates db_file1 thread1 index1 db_file2 thread2 index2 reg :
  registry_ok reg →
  let '(h1, reg1) := _get_connection db_file1 thread1 index1 reg in
  let '(h2, reg2) := _get_connection db_file2 thread2 index2 reg1 in
  registry_ok reg2
  ∧ (handle_pair h1 = handle_pair h2 → db_file1 = db_file2 ∧ thread1 = thread2).
Proof.
  intros Hok.
  destruct (get_connection_spec db_file1 thread1 index1 reg)
    as (c1 & reg1 & -> & Hc1 & _ & Hok1).
  destruct (get_connection_spec db_file2 thread2 index2 reg1)
    as (c2 & reg2 & -> & Hc2 & Hmono & Hok2).
  specialize (Hok2 (Hok1 Hok)). split; [done|].
  assert (handle_pair (if index1 then Cursor c1 else Connection c1) = c1) as ->
    by (by destruct index1).
  assert (handle_pair (if index2 then Cursor c2 else Connection c2) = c2) as ->
    by (by destruct index2).
  intros <-. destruct Hok2 as [_ Hrank]. by eapply Hrank; [apply Hmono| |].
Qed.

Lemma empty_registry_ok : registry_ok empty_registry.
Proof.
  split.
  - intros f t c (per & Hper & _). simpl in Hper. by rewrite lookup_empty in Hper.
  - intros f1 t1 c1 f2 t2 c2 (per & Hper & _). simpl in Hper.
    by rewrite lookup_empty in Hper.
Qed.

Lemma register_ok db_file reg : registry_ok reg → registry_ok (register db_file reg).
Proof.
  intros [Hfile Hrank].
  assert (opened (register db_file reg) = opened reg) as Hop.
  { unfold register. by destruct (_tm_dbs reg !! db_file). }
  split.
  - intros f t c ?%register_holds. rewrite Hop. by eapply Hfile.
  - intros f1 t1 c1 f2 t2 c2 ?%register_holds ?%register_holds. by apply Hrank.
Qed.

(** ** The further properties on the reference environment *)

Lemma hello_state_ok : state_ok hello_state.
Proof.
  exact (add_dict_ok (env := ref_env) hello_unit "en" "fr" true _ (empty_database_ok false)).
Qed.

Lemma pending_state_ok : state_ok pending_state.
Proof.
  exact (add_dict_ok (env := ref_env) hello_unit "en" "fr" false _ (empty_database_ok false)).
Qed.

Lemma ranking_state_ok : state_ok ranking_state.
Proof.
  exact (add_list_ok (env := ref_env) _ "en" "fr" true _ (empty_database_ok false)).
Qed.

Lemma add_dict_raise_rolls_back_witness :
  add_dict (env := ref_env) broken_unit "en" "fr" true pending_state
    = (Raise (KeyError "source"), exec (add_dict (env := ref_env) broken_unit "en" "fr" true)
                                     pending_state)
  ∧ working (exec (add_dict (env := ref_env) broken_unit "en" "fr" true) pending_state)
    = committed pending_state
  ∧ committed (exec (add_dict (env := ref_env) broken_unit "en" "fr" true) pending_state)
    = committed pending_state.
Proof.
  assert (Hrun : add_dict (env := ref_env) broken_unit "en" "fr" true pending_state
                 = (Raise (KeyError "source"),
                    exec (add_dict (env := ref_env) broken_unit "en" "fr" true) pending_state))
    by (vm_compute; reflexivity).
  split; [exact Hrun|].
  exact (add_dict_raise_rolls_back (env := ref_env) _ _ _ _ _ _ Hrun).
Defined.

Lemma add_dict_return_commit_witness :
  committed hello_state = working hello_state.
Proof.
  apply (add_dict_return_commit (env := ref_env) hello_unit "en" "fr" true
           (connect (empty_database false)) hello_state).
  vm_compute. reflexivity.
Defined.

Lemma add_dict_without_source_witness :
  add_dict (env := ref_env) broken_unit "en" "fr" true pending_state
  = (Raise (KeyError "source"),
     {| committed := committed pending_state; working := committed pending_state;
        clock := clock pending_state |}).
Proof.
  apply (add_dict_without_source (env := ref_env) broken_unit "en" "fr" true pending_state).
  left. reflexivity.
Defined.

Lemma add_dict_target_None_witness :
  targets_tbl (working (exec (add_dict (env := ref_env) cat_unit_no_target "en" "fr" true)
                          hello_state))
  = targets_tbl (working hello_state).
Proof.
  apply (add_dict_target_None (env := ref_env) cat_unit_no_target "en" "fr" true hello_state).
  - reflexivity.
  - vm_compute. reflexivity.
Defined.

Lemma add_dict_repeated_witness :
  ∃ st1 st2,
    add_dict (env := ref_env) hello_unit "en" "fr" true (connect (empty_database true))
      = (Return (), st1)
    ∧ add_dict (env := ref_env) hello_unit "en" "fr" true st1 = (Return (), st2)
    ∧ working st2 = working st1.
Proof.
  apply (add_dict_repeated (env := ref_env) hello_unit "en" "fr" true true
           "Hello world" "" "Bonjour monde");
    [reflexivity..|exact (proj2 (empty_database_ok true))].
Defined.

Lemma add_dict_source_twice_witness :
  ∃ sid st1 r,
    add_dict_source hello_unit "en" (connect (empty_database true)) = (Return sid, st1)
    ∧ add_dict_source hello_unit "en" st1 = (Return sid, st1)
    ∧ filter (sources_uniq_conflict "Hello world" (Some "") "en")
        (sources_tbl (working st1)) = [r]
    ∧ sources.sid r = sid.
Proof.
  apply (add_dict_source_twice hello_unit "en" "Hello world" "").
  - reflexivity.
  - reflexivity.
  - exact (proj2 (empty_database_ok true)).
  - intros text context lang. simpl. lia.
Defined.

Lemma translate_unit_languages_witness :
  ∃ s t, s ∈ sources_tbl (working hello_state) ∧ t ∈ targets_tbl (working hello_state)
    ∧ sources.sid s = targets.sid t
    ∧ sources.lang s = "en" ∧ targets.lang t = "fr"
    ∧ "Hello world" = sources.text s ∧ "Bonjour monde" = targets.text t.
Proof.
  apply (translate_unit_languages (env := ref_env) (default_TMDB false) "Hello world"
           (LangStr "en") (LangStr "fr") hello_state [hello_result] hello_state hello_result).
  - vm_compute. reflexivity.
  - left.
Defined.

Lemma translate_unit_source_length_witness :
  2 ≤ Z.of_nat (String.length "Hello world") ≤ 1000.
Proof.
  apply (translate_unit_source_length (env := ref_env) (default_TMDB false) "Hello world"
           (LangStr "en") (LangStr "fr") hello_state [hello_result] hello_state hello_result).
  - exact (proj2 hello_state_ok).
  - vm_compute. reflexivity.
  - left.
Defined.

Lemma add_dict_stores_pair_witness :
  ∃ st' s t,
    add_dict (env := ref_env) cat_unit "EN" "fr_FR" true hello_state = (Return (), st')
    ∧ s ∈ sources_tbl (working st') ∧ t ∈ targets_tbl (working st')
    ∧ sources.sid s = targets.sid t
    ∧ sources.text s = "Cat" ∧ sources.context s = Some ""
    ∧ sources.lang s = normalize_code (Environment := ref_env) "EN"
    ∧ sources.length s = 3
    ∧ targets.text t = "Chat"
    ∧ targets.lang t = normalize_code (Environment := ref_env) "fr_FR".
Proof.
  apply (add_dict_stores_pair (env := ref_env) cat_unit "EN" "fr_FR" true "Cat" (Some "")
           "Chat" hello_state); try reflexivity.
  exact (proj2 hello_state_ok).
Defined.


Lemma insertion_keeps_integrity_witness :
  state_ok (exec (add_dict (env := ref_env) hello_unit "en" "fr" true)
              (connect (empty_database true))).
Proof.
  apply (insertion_keeps_integrity (env := ref_env) (connect (empty_database true))).
  apply empty_database_ok.
Defined.

Lemma insertion_keeps_unique_witness :
  state_unique (exec (add_dict (env := ref_env) hello_unit "en" "fr" true)
                  (connect (empty_database true))).
Proof.
  apply (insertion_keeps_unique (env := ref_env) (connect (empty_database true))).
  apply empty_database_unique.
Defined.

Lemma preload_db_counts_targets_witness :
  preload_db (default_TMDB false) ranking_state = (Return 5, ranking_state).
Proof.
  apply (preload_db_counts_targets (default_TMDB false) ranking_state).
  - exact (proj2 ranking_state_ok).
  - discriminate.
Defined.

Lemma init_fulltext_mirrors_witness :
  ∃ st', init_fulltext true hello_state = (Return true, st')
    ∧ fulltext_tbl (working st')
      = Some [ {| fulltext.docid := 1; fulltext.text := "Hello world" |} ]
    ∧ sources_tbl (working st') = sources_tbl (working hello_state)
    ∧ targets_tbl (working st') = targets_tbl (working hello_state)
    ∧ committed st' = working st'
    ∧ state_ok st'.
Proof.
  apply (init_fulltext_mirrors hello_state). exact (proj2 hello_state_ok).
Defined.

Lemma levenshtein_bounds_range_witness :
  2 ≤ min_levenshtein_length 11 75 ∧ 14 ≤ 1000.
Proof.
  split.
  - exact (proj1 (levenshtein_bounds_range 11 75 1000)).
  - apply (proj2 (levenshtein_bounds_range 11 75 1000) 14). reflexivity.
Defined.



Lemma add_list_return_witness :
  2 = Z.of_nat (List.length [hello_unit; hello_unit])
  ∧ committed (exec (add_list (env := ref_env) [hello_unit; hello_unit] "en" "fr" true)
                 (connect (empty_database false)))
    = working (exec (add_list (env := ref_env) [hello_unit; hello_unit] "en" "fr" true)
                 (connect (empty_database false))).
Proof.
  apply (add_list_return (env := ref_env) [hello_unit; hello_unit] "en" "fr" true
           (connect (empty_database false)) 2).
  vm_compute. reflexivity.
Defined.

Lemma add_unit_own_languages_witness :
  add_unit (env := ref_env) translated_unit (Some "de") None true (connect (empty_database false))
  = add_unit (env := ref_env) translated_unit None (Some "it") true
      (connect (empty_database false)).
Proof.
  apply (add_unit_own_languages (env := ref_env) translated_unit); by eexists.
Defined.

Lemma unit_words_spec_witness :
  (3 ≤ String.length "fine_x")%nat
  ∧ Forall (λ c, is_word_char c = true) (list_ascii_of_string "fine_x").
Proof.
  apply (unit_words_spec "The cat, sat on the mat; it's fine_x" "fine_x").
  vm_compute. do 5 right. left.
Defined.

Lemma get_connection_isolates_witness :
  let '(h1, reg1) := _get_connection "tm.db" 1 false (register "tm.db" empty_registry) in
  let '(h2, reg2) := _get_connection "tm.db" 2 true reg1 in
  registry_ok reg2
  ∧ (handle_pair h1 = handle_pair h2 → "tm.db" = "tm.db" ∧ 1%nat = 2%nat).
Proof.
  apply (get_connection_isolates "tm.db" 1 false "tm.db" 2 true
           (register "tm.db" empty_registry)).
  apply register_ok, empty_registry_ok.
Defined.

(** Two threads and two files: four connections, opened in the order
    of the first calls; a later call of the first thread opens none. *)
Example get_connection_run :
  let reg0 := register "b.db" (register "a.db" empty_registry) in
  let '(h1, reg1) := connection "a.db" 1 reg0 in
  let '(h2, reg2) := cursor "a.db" 2 reg1 in
  let '(h3, reg3) := connection "b.db" 1 reg2 in
  let '(h4, reg4) := cursor "a.db" 1 reg3 in
  h1 = Connection {| pair_db_file := "a.db"; pair_rank := 0 |}
  ∧ h2 = Cursor {| pair_db_file := "a.db"; pair_rank := 1 |}
  ∧ h3 = Connection {| pair_db_file := "b.db"; pair_rank := 2 |}
  ∧ h4 = Cursor {| pair_db_file := "a.db"; pair_rank := 0 |}
  ∧ opened reg4 = 3%nat.
Proof. vm_compute. done. Qed.
